(** * Aardvark Any Importer: a shallow embedding of [aardvark_any_importer.py]

    The addon keeps a list of extension associations in the user preferences,
    groups the files selected in the file browser by extension, and calls the
    operator associated with each extension.  The host application (its
    operator registry, the properties an operator exposes, the effect of
    calling an operator) is a parameter of the model; everything the addon
    computes itself is a Rocq function that can be evaluated.

    A Python string is modelled by the [string] of its bytes in UTF-8, which
    is what a string literal of this file denotes.  Searching for a
    character of ASCII, cutting at one, comparing, and testing for a prefix
    or a suffix give the same on the bytes as on the characters.
    [str.lower] is the exception: Python lower-cases by the tables of
    Unicode, and of these the model has the letters A to Z only, so that
    [PyStr.lower] is [str.lower] on ASCII text and on text whose other
    characters have no lower-case form; what is stated about the value of a
    lower-cased string is stated for ASCII text.  Paths follow [posixpath]. *)

From Stdlib Require Import Ascii ZArith Lia Bool.
From Stdlib Require String.
From stdpp Require Import base decidable list sorting strings gmap.

Local Open Scope Z_scope.

(** ** Python string operations used by the addon *)

Module PyStr.

Definition chars (s : string) : list ascii := String.list_ascii_of_string s.
Definition str (l : list ascii) : string := String.string_of_list_ascii l.

Definition dot : ascii := "."%char.
Definition slash : ascii := "/"%char.

(** [len(s)] *)
Definition len (s : string) : nat := String.length s.

(** [s[n:]] for [0 <= n] *)
Fixpoint slice_from (n : nat) (s : string) : string :=
  match n, s with
  | O, _ => s
  | S _, EmptyString => EmptyString
  | S n', String _ s' => slice_from n' s'
  end.

(** [s[:n]] for [0 <= n] *)
Fixpoint slice_to (n : nat) (s : string) : string :=
  match n, s with
  | O, _ => EmptyString
  | S _, EmptyString => EmptyString
  | S n', String a s' => String a (slice_to n' s')
  end.

(** [s[i:j]] for [0 <= i], [0 <= j] *)
Definition slice (i j : nat) (s : string) : string :=
  slice_from i (slice_to j s).

(** [s[:-2]]: a negative bound counts from the end and is clipped at 0. *)
Definition drop_last2 (s : string) : string :=
  slice_to (len s - 2) s.

(** [s.startswith(p)] *)
Fixpoint startswith (s p : string) : bool :=
  match p, s with
  | EmptyString, _ => true
  | String _ _, EmptyString => false
  | String b p', String a s' => Ascii.eqb a b && startswith s' p'
  end.

(** [s.endswith(suf)]: [suf] is no longer than [s] and the last
    [len(suf)] characters of [s] are [suf]. *)
Definition endswith (s suf : string) : bool :=
  (len suf <=? len s)%nat && String.eqb (slice_from (len s - len suf) s) suf.

(** [c in s] for a one-character [c] *)
Fixpoint contains (c : ascii) (s : string) : bool :=
  match s with
  | EmptyString => false
  | String a s' => Ascii.eqb a c || contains c s'
  end.

(** [s.rfind(c)] for a one-character [c]: the highest index of [c] in [s],
    or [-1]. *)
Fixpoint rfind_from (c : ascii) (s : string) (i last : Z) : Z :=
  match s with
  | EmptyString => last
  | String a s' => rfind_from c s' (i + 1) (if Ascii.eqb a c then i else last)
  end.

Definition rfind (c : ascii) (s : string) : Z := rfind_from c s 0 (-1).

(** [s.split(c)] for a one-character separator: every occurrence of [c]
    cuts, empty pieces are kept, the result is never empty. *)
Fixpoint split (c : ascii) (s : string) : list string :=
  match s with
  | EmptyString => [EmptyString]
  | String a s' =>
      if Ascii.eqb a c then EmptyString :: split c s'
      else match split c s' with
           | [] => [String a EmptyString]
           | piece :: rest => String a piece :: rest
           end
  end.

(** [sep.join(l)] *)
Definition join (sep : string) (l : list string) : string :=
  String.concat sep l.

(** [s.replace(c, "")] for a one-character [c] *)
Fixpoint remove_char (c : ascii) (s : string) : string :=
  match s with
  | EmptyString => EmptyString
  | String a s' =>
      if Ascii.eqb a c then remove_char c s' else String a (remove_char c s')
  end.

Definition is_upper (a : ascii) : bool :=
  let n := nat_of_ascii a in ((65 <=? n) && (n <=? 90))%nat.

Definition lower_char (a : ascii) : ascii :=
  if is_upper a then ascii_of_nat (nat_of_ascii a + 32) else a.

(** [s.lower()], for a string whose characters outside ASCII have no
    lower-case form: the letters A to Z are replaced by a to z and every
    other byte is kept. *)
Fixpoint lower (s : string) : string :=
  match s with
  | EmptyString => EmptyString
  | String a s' => String (lower_char a) (lower s')
  end.

(** Truth value of a string in a condition: non-empty. *)
Definition truthy (s : string) : bool := negb (String.eqb s "").

(** [sorted(l)] on strings: insertion into an ordered list, comparing
    character codes. *)
Fixpoint insert_sorted (x : string) (l : list string) : list string :=
  match l with
  | [] => [x]
  | y :: l' => if String.leb x y then x :: l else y :: insert_sorted x l'
  end.

Definition sorted (l : list string) : list string :=
  foldr insert_sorted [] l.

End PyStr.

(** ** [os.path] on a POSIX platform

    On Linux and macOS [os.path] is [posixpath], and that is the module
    embedded here: the separator is the slash.  On Windows [os.path] is
    [ntpath], which joins with a backslash and knows drive letters; it is not
    modelled, and the properties that depend on what [join] or [dirname]
    compute are stated for POSIX. *)

Module OsPath.
Import PyStr.

(** [genericpath._splitext(p, "/", None, ".")]: the extension starts at the
    last dot of the last path component, unless only dots precede it in
    that component. *)
Definition splitext (p : string) : string * string :=
  let sepIndex := rfind slash p in
  let dotIndex := rfind dot p in
  if (sepIndex <? dotIndex)
     && existsb (fun a => negb (Ascii.eqb a dot))
          (chars (slice (Z.to_nat (sepIndex + 1)) (Z.to_nat dotIndex) p))
  then (slice_to (Z.to_nat dotIndex) p, slice_from (Z.to_nat dotIndex) p)
  else (p, EmptyString).

(** [s.rstrip(c)] for a one-character [c] *)
Fixpoint rstrip (c : ascii) (s : string) : string :=
  match s with
  | EmptyString => EmptyString
  | String a s' =>
      match rstrip c s' with
      | EmptyString =>
          if Ascii.eqb a c then EmptyString else String a EmptyString
      | r => String a r
      end
  end.

(** [posixpath.dirname(p)] *)
Definition dirname (p : string) : string :=
  let i := Z.to_nat (rfind slash p + 1) in
  let head := slice_to i p in
  if truthy head && negb (forallb (Ascii.eqb slash) (chars head))
  then rstrip slash head
  else head.

(** [posixpath.join(a, b)] *)
Definition join (a b : string) : string :=
  if startswith b "/" then b
  else if negb (truthy a) || endswith a "/" then a +:+ b
  else a +:+ "/" +:+ b.

(** The expression [os.path.splitext(name)[-1][1:]] of [execute]. *)
Definition ext_of (name : string) : string :=
  slice_from 1 (splitext name).2.

End OsPath.

(** ** Data model *)

(** [FileAssociation]: one entry of [prefs.file_extensions]. *)
Record FileAssociation := {
  extension : string;
  operator : string
}.

(** Return sets of the operators and report types, as far as the addon uses
    them. *)
Inductive Status := FINISHED | CANCELLED.
Inductive ReportType := WARNING | ERROR.

Record Report := {
  report_type : ReportType;
  report_msg : string
}.

(** Values passed as keyword arguments: a string, or the list of
    [{"name": name}] dictionaries built for [files]. *)
Inductive Value :=
  | VStr (s : string)
  | VFiles (entries : list (list (string * string))).

(** One call of [getattr(getattr(bpy.ops, base), oprs)] with positional
    arguments [inv_args] and keyword arguments [inv_kwargs] (in insertion
    order). *)
Record Invocation := {
  inv_base : string;
  inv_oprs : string;
  inv_args : list string;
  inv_kwargs : list (string * Value)
}.

(** What the addon asks of the host application:
    - [ops_dir] is [dir(bpy.ops)] and [submod_dir base] is
      [dir(getattr(bpy.ops, base))];
    - [has_prop oper name] is
      [hasattr(context.window_manager.operator_properties_last(oper), name)];
    - [call_raises log inv] tells whether calling the operator with [inv],
      after the calls in [log], raises.
    Operators called through the host are taken not to touch this addon's
    preferences; [Effectful], further down, has the import operator with
    operators that do. *)
Record Host := {
  ops_dir : list string;
  submod_dir : string → list string;
  has_prop : string → string → bool;
  call_raises : list Invocation → Invocation → bool
}.

(** The exceptions of the model; [OperatorError inv] stands for whatever the
    operator called with [inv] raises. *)
Inductive Exn :=
  | IndexError
  | ValueError
  | TypeError
  | KeyError
  | OperatorError (inv : Invocation).

(** The state the addon reads and writes: the preference collection, the
    module-level [oper_cache], the reports shown to the user and the operator
    calls made so far (the most recent last).  The addon is taken to be
    registered, so that [get_user_preferences] returns its preferences. *)
Record World := {
  file_extensions : list FileAssociation;
  oper_cache : gmap string bool;
  reports : list Report;
  invocations : list Invocation
}.

(** The import operator's own fields. *)
Record ImportOp := {
  filepath : string;
  files : list string;
  directory : string
}.

Global Instance FileAssociation_eq_dec : EqDecision FileAssociation.
Proof. solve_decision. Defined.
Global Instance Status_eq_dec : EqDecision Status.
Proof. solve_decision. Defined.
Global Instance ReportType_eq_dec : EqDecision ReportType.
Proof. solve_decision. Defined.
Global Instance Report_eq_dec : EqDecision Report.
Proof. solve_decision. Defined.
Global Instance Value_eq_dec : EqDecision Value.
Proof. solve_decision. Defined.
Global Instance Invocation_eq_dec : EqDecision Invocation.
Proof. solve_decision. Defined.

(** ** Computations that read and write the world and may raise *)

Inductive Outcome (A : Type) :=
  | Return (a : A)
  | Raise (e : Exn).
Global Arguments Return {A} a.
Global Arguments Raise {A} e.

Global Instance Outcome_ret : MRet Outcome := λ A a, Return a.
Global Instance Outcome_bind : MBind Outcome := λ A B f m,
  match m with
  | Return a => f a
  | Raise e => Raise e
  end.

Definition M (A : Type) : Type := World → Outcome A * World.

Global Instance M_ret : MRet M := λ A a w, (Return a, w).
Global Instance M_bind : MBind M := λ A B f m w,
  match m w with
  | (Return a, w') => f a w'
  | (Raise e, w') => (Raise e, w')
  end.

Definition raise {A} (e : Exn) : M A := λ w, (Raise e, w).

(** A computation that does not touch the world. *)
Definition lift {A} (o : Outcome A) : M A := λ w, (o, w).
(** Updates of one component of the world. *)
Definition with_prefs (w : World) (l : list FileAssociation) : World :=
  {| file_extensions := l; oper_cache := oper_cache w;
     reports := reports w; invocations := invocations w |}.
Definition with_cache (w : World) (c : gmap string bool) : World :=
  {| file_extensions := file_extensions w; oper_cache := c;
     reports := reports w; invocations := invocations w |}.
Definition with_report (w : World) (r : Report) : World :=
  {| file_extensions := file_extensions w; oper_cache := oper_cache w;
     reports := reports w ++ [r]; invocations := invocations w |}.
Definition with_invocation (w : World) (inv : Invocation) : World :=
  {| file_extensions := file_extensions w; oper_cache := oper_cache w;
     reports := reports w; invocations := invocations w ++ [inv] |}.

Definition get_prefs : M (list FileAssociation) := λ w, (Return (file_extensions w), w).
Definition set_prefs (l : list FileAssociation) : M unit := λ w, (Return (), with_prefs w l).
Definition get_cache : M (gmap string bool) := λ w, (Return (oper_cache w), w).
Definition set_cache (c : gmap string bool) : M unit := λ w, (Return (), with_cache w c).

(** [self.report({type}, msg)] *)
Definition report (t : ReportType) (msg : string) : M unit := λ w,
  (Return (), with_report w {| report_type := t; report_msg := msg |}).

(** Calling an operator of the host that leaves the state of the addon
    alone: the call is recorded, then the host decides whether it raises. *)
Definition call (h : Host) (inv : Invocation) : M unit := λ w,
  if call_raises h (invocations w) inv
  then (Raise (OperatorError inv), with_invocation w inv)
  else (Return (), with_invocation w inv).

(** [for x in l: acc = body(x, acc)] *)
Fixpoint for_each {A S} (l : list A) (acc : S) (body : A → S → M S) : M S :=
  match l with
  | [] => mret acc
  | x :: l' => acc' ← body x acc; for_each l' acc' body
  end.

(** ** The functions of the addon *)

(** [reset_oper_cache] *)
Definition reset_oper_cache : M unit := set_cache ∅.

(** [operator_exists(ref, refresh)] *)
Definition operator_exists (h : Host) (ref : string) (refresh : bool) : M bool :=
  (if refresh then set_cache ∅ else mret ());;
  cache ← get_cache;
  match (if refresh then None else cache !! ref) with
  | Some cached => mret cached
  | None =>
      if negb (PyStr.contains PyStr.dot ref) then mret false
      else
        match PyStr.split PyStr.dot ref with
        | [base; oprs] =>
            let res := bool_decide (base ∈ ops_dir h)
                       && bool_decide (oprs ∈ submod_dir h base) in
            cache ← get_cache;
            set_cache (<[ref := res]> cache);;
            mret res
        | _ => raise ValueError
        end
  end.

(** The [defaults] dictionary of [reset_extensions], in source order. *)
Definition defaults : list (string * string) :=
  [ ("bvh", "import_anim.bvh");
    ("fbx", "import_scene.fbx");
    ("obj", "import_scene.obj");
    ("abc", "wm.alembic_import");
    ("dae", "wm.collada_import");
    ("stl", "import_mesh.stl");
    ("svg", "import_curve.svg");
    ("dxf", "import_scene.dxf");
    ("ase", "import_ase.read");
    ("mdd", "import_shape.mdd");
    ("chan", "import_scene.import_chan");
    ("wrl", "import_scene.x3d");
    ("x3d", "import_scene.x3d");
    ("xyz", "import_mesh.xyz");
    ("txt", "text.open");
    ("rtf", "text.open");
    ("py", "text.open") ].

(** [d[k]] on a dictionary given by its items. *)
Fixpoint dict_get (d : list (string * string)) (k : string) : option string :=
  match d with
  | [] => None
  | (k', v) :: d' => if decide (k' = k) then Some v else dict_get d' k
  end.

(** [prefs.file_extensions.add()] followed by the two assignments. *)
Definition add_association (ext oper : string) : M unit :=
  prefs ← get_prefs;
  set_prefs (prefs ++ [{| extension := ext; operator := oper |}]).

(** [IMPORT_OT_import_any_reset_extensions.execute] *)
Definition reset_extensions : M Status :=
  reset_oper_cache;;
  set_prefs [];;
  for_each (PyStr.sorted defaults.*1) ()
    (λ ext _,
       match dict_get defaults ext with
       | Some oper => add_association ext oper
       | None => raise KeyError
       end);;
  mret FINISHED.

(** [self.extension.replace(".", "").lower()] *)
Definition normalize (ext : string) : string :=
  PyStr.lower (PyStr.remove_char PyStr.dot ext).

(** [IMPORT_OT_import_any_add_extension.execute] *)
Definition add_extension (ext : string) : M Status :=
  reset_oper_cache;;
  let this_ext := normalize ext in
  prefs ← get_prefs;
  let curr_exts := extension <$> prefs in
  if bool_decide (this_ext ∈ curr_exts) then
    report ERROR "Extension already defined";;
    mret CANCELLED
  else
    add_association this_ext "";;
    mret FINISHED.

(** [IMPORT_OT_import_any_remove_extension.execute] *)
Definition remove_extension (ext : string) : M Status :=
  reset_oper_cache;;
  prefs ← get_prefs;
  let pop := fst <$> list_find (λ fa, extension fa = ext) prefs in
  match pop with
  | Some i =>
      set_prefs (delete i prefs);;
      mret FINISHED
  | None =>
      report ERROR ("Extension " +:+ ext +:+ " missing, cannot remove");;
      mret CANCELLED
  end.

(** [operator_code_update], as a function from the stored operator string
    to the string it leaves in the field. *)
Definition operator_code_update (oper : string) : string :=
  let truncate_suffix := PyStr.endswith oper "()" in
  let new_base :=
    if decide (length (PyStr.split PyStr.dot oper) = 4%nat)
    then Some (PyStr.join "." (drop 2 (PyStr.split PyStr.dot oper)))
    else None in
  match new_base with
  | Some nb =>
      if PyStr.truthy nb && truncate_suffix then PyStr.drop_last2 nb
      else if PyStr.truthy nb then nb
      else if truncate_suffix then PyStr.drop_last2 oper
      else oper
  | None =>
      if truncate_suffix then PyStr.drop_last2 oper else oper
  end.

(** The check of an entry's operator field in
    [AardvarkImporterPreferences.draw], the only caller of
    [operator_exists]: the label drawn next to the entry. *)
Inductive DrawLabel :=
  | AddOperator
  | ShouldContainDot
  | OnlyOneDot
  | Blank
  | NotFound.

Definition draw_operator_label (h : Host) (oper : string) : M DrawLabel :=
  if negb (PyStr.truthy oper) then mret AddOperator
  else if negb (PyStr.contains PyStr.dot oper) then mret ShouldContainDot
  else if (2 <? length (PyStr.split PyStr.dot oper))%nat then mret OnlyOneDot
  else
    found ← operator_exists h oper false;
    mret (if found : bool then Blank else NotFound).

(** The comprehension [[imp.name for imp in self.files if
    imp.name.endswith(ext)]] of [import_single]. *)
Definition matching_files (self : ImportOp) (ext : string) : list string :=
  filter (λ name, PyStr.endswith name ext = true) (files self).

(** The loop of [import_single] over [prefs.file_extensions]: the operator
    of the first entry whose extension is [ext], [None] when there is none. *)
Fixpoint find_operator (prefs : list FileAssociation) (ext : string) : option string :=
  match prefs with
  | [] => None
  | pref_set :: rest =>
      if decide (extension pref_set = ext) then Some (operator pref_set)
      else find_operator rest ext
  end.

(** [files[0]] *)
Definition first_file (files : list string) : Outcome string :=
  match files with
  | [] => Raise IndexError
  | f :: _ => Return f
  end.

(** The dictionary literal of [import_single] repeats the key ["name"]; it
    denotes the dictionary with that single key. *)
Definition name_entry (name : string) : list (string * string) :=
  [("name", name)].

(** The branches of [import_single] that fill [kwargs]. *)
Definition build_kwargs (h : Host) (self : ImportOp) (oper : string)
    (files : list string) : Outcome (list (string * Value)) :=
  let bfilepath := has_prop h oper "filepath" in
  let bdirectory := has_prop h oper "directory" in
  let bfiles := has_prop h oper "files" in
  if bfilepath && bdirectory && bfiles then
    f0 ← first_file files;
    mret [ ("filepath", VStr (OsPath.join (directory self) f0));
           ("directory", VStr (directory self));
           ("files", VFiles (name_entry <$> files)) ]
  else if bfilepath && bdirectory && negb bfiles then
    f0 ← first_file files;
    mret [ ("filepath", VStr f0);
           ("directory", VStr (directory self)) ]
  else if bfilepath && negb bdirectory then
    f0 ← first_file files;
    mret [ ("filepath", VStr (OsPath.join (directory self) f0)) ]
  else if bfiles && bdirectory then
    mret [ ("files", VFiles (name_entry <$> files));
           ("directory", VStr (directory self)) ]
  else mret [].

(** [import_single] up to the call of the operator: the matching files, the
    operator of the association ([None] if there is none, which the host
    refuses as an operator name), the keyword arguments, and the split of
    the operator name into [base, oprs]. *)
Definition prepare_call (h : Host) (self : ImportOp)
    (prefs : list FileAssociation) (ext : string) : Outcome Invocation :=
  let files := matching_files self ext in
  match find_operator prefs ext with
  | None => Raise TypeError
  | Some oper =>
      kwargs ← build_kwargs h self oper files;
      match PyStr.split PyStr.dot oper with
      | [base; oprs] =>
          mret {| inv_base := base; inv_oprs := oprs;
                  inv_args := ["INVOKE_DEFAULT"]; inv_kwargs := kwargs |}
      | _ => Raise ValueError
      end
  end.

(** [IMPORT_OT_import_any_file.import_single] *)
Definition import_single (h : Host) (self : ImportOp) (ext : string) : M unit :=
  prefs ← get_prefs;
  inv ← lift (prepare_call h self prefs ext);
  call h inv.

(** Python leaves the iteration order of a set open: [order] is a possible
    order of iteration over [set(elems)] when it lists each distinct element
    of [elems] once. *)
Definition set_iteration (elems order : list string) : Prop :=
  order ≡ₚ remove_dups elems.

Global Instance set_iteration_dec elems order : Decision (set_iteration elems order).
Proof. unfold set_iteration. apply _. Defined.

(** The body of the loop of [execute] over the set of extensions. *)
Definition execute_step (h : Host) (self : ImportOp) (curr_exts : list string)
    (ext : string) (ext_missing : list string) : M (list string) :=
  if bool_decide (ext ∈ curr_exts) then
    import_single h self ext;;
    mret ext_missing
  else mret (ext_missing ++ [ext]).

(** [IMPORT_OT_import_any_file.execute]; [order] is the order in which the
    set [extensions] is iterated.  The call of the addon's own operator
    [import_any.reset_extensions] runs [reset_extensions]. *)
Definition execute (h : Host) (order : list string) (self : ImportOp) : M Status :=
  prefs ← get_prefs;
  (if decide (prefs = []) then reset_extensions;; mret () else mret ());;
  prefs ← get_prefs;
  let curr_exts := extension <$> prefs in
  let self := {| filepath := filepath self; files := files self;
                 directory := OsPath.dirname (filepath self) |} in
  (match files self with
   | [] => raise IndexError
   | _ :: _ => mret ()
   end);;
  ext_missing ← for_each order [] (execute_step h self curr_exts);
  (if decide (ext_missing = []) then mret ()
   else report WARNING ("Extensions not associated: " +:+ PyStr.join ", " ext_missing));;
  mret FINISHED.

(** The extensions of the selected files, as [execute] computes them before
    building the set. *)
Definition selected_extensions (self : ImportOp) : list string :=
  OsPath.ext_of <$> files self.

(** [get_prefs_extensions] *)
Definition get_prefs_extensions : M string :=
  prefs ← get_prefs;
  mret (PyStr.join ";" ((λ pset, "*" +:+ extension pset) <$> prefs)).

(** The loop of [AardvarkImporterPreferences.draw] over the entries of the
    collection: the labels of the rows, in order. *)
Definition draw_labels (h : Host) : M (list DrawLabel) :=
  prefs ← get_prefs;
  for_each prefs []
    (λ ext labels,
       label ← draw_operator_label h (operator ext);
       mret (labels ++ [label])).

(** ** Operators that change the state of the addon

    The operator that [import_single] calls is named by the user.  It may
    be one of the addon's own, such as [import_any.reset_extensions], or
    another operator that writes the preferences of the addon.  Here the
    host gives a call its effect on the state of the addon: the operator
    called with [inv] in the state [w] leaves the preferences, [oper_cache]
    and the reports as [eff inv w] has them, and then returns or raises.
    [call], [import_single] and [execute] above are the case of operators
    without such an effect. *)
Definition Effect : Type := Invocation → World → World.

Definition no_effect : Effect := λ _ w, w.

(** The state after the operator called with [inv] has run. *)
Definition after_call (eff : Effect) (inv : Invocation) (w : World) : World :=
  {| file_extensions := file_extensions (eff inv w);
     oper_cache := oper_cache (eff inv w);
     reports := reports (eff inv w);
     invocations := invocations w ++ [inv] |}.

Module Effectful.

(** Calling an operator of the host: it runs, with its effect on the state
    of the addon, and returns or raises; the call is recorded. *)
Definition call (h : Host) (eff : Effect) (inv : Invocation) : M unit := λ w,
  if call_raises h (invocations w) inv
  then (Raise (OperatorError inv), after_call eff inv w)
  else (Return (), after_call eff inv w).

(** [IMPORT_OT_import_any_file.import_single] *)
Definition import_single (h : Host) (eff : Effect) (self : ImportOp)
    (ext : string) : M unit :=
  prefs ← get_prefs;
  inv ← lift (prepare_call h self prefs ext);
  call h eff inv.

(** The body of the loop of [execute] over the set of extensions. *)
Definition execute_step (h : Host) (eff : Effect) (self : ImportOp)
    (curr_exts : list string) (ext : string) (ext_missing : list string)
    : M (list string) :=
  if bool_decide (ext ∈ curr_exts) then
    import_single h eff self ext;;
    mret ext_missing
  else mret (ext_missing ++ [ext]).

(** [IMPORT_OT_import_any_file.execute] *)
Definition execute (h : Host) (eff : Effect) (order : list string)
    (self : ImportOp) : M Status :=
  prefs ← get_prefs;
  (if decide (prefs = []) then reset_extensions;; mret () else mret ());;
  prefs ← get_prefs;
  let curr_exts := extension <$> prefs in
  let self := {| filepath := filepath self; files := files self;
                 directory := OsPath.dirname (filepath self) |} in
  (match files self with
   | [] => raise IndexError
   | _ :: _ => mret ()
   end);;
  ext_missing ← for_each order [] (execute_step h eff self curr_exts);
  (if decide (ext_missing = []) then mret ()
   else report WARNING ("Extensions not associated: " +:+ PyStr.join ", " ext_missing));;
  mret FINISHED.

End Effectful.

(** ** [make_annotations] *)

(** The value of a class attribute, as far as [make_annotations] looks at
    it: whether it is a tuple (as the property definitions of [bpy.props]
    are before 2.80), and what it is. *)
Record AttrValue := {
  is_tuple : bool;
  attr_repr : string
}.

(** Python dictionaries, as their items in insertion order: [d.get(k)],
    [d[k] = v] and [del d[k]]. *)
Fixpoint pydict_get {V} (d : list (string * V)) (k : string) : option V :=
  match d with
  | [] => None
  | (k', v) :: d' => if decide (k' = k) then Some v else pydict_get d' k
  end.

Fixpoint pydict_set {V} (d : list (string * V)) (k : string) (v : V)
    : list (string * V) :=
  match d with
  | [] => [(k, v)]
  | (k', v') :: d' =>
      if decide (k' = k) then (k, v) :: d' else (k', v') :: pydict_set d' k v
  end.

Definition pydict_del {V} (d : list (string * V)) (k : string)
    : list (string * V) :=
  filter (λ kv, kv.1 ≠ k) d.

(** A class: the items of [cls.__dict__] other than [__annotations__], and
    the dictionary [cls.__dict__['__annotations__']] when the class has one. *)
Record PyClass := {
  cls_dict : list (string * AttrValue);
  cls_annotations : option (list (string * AttrValue))
}.

(** [a < b] on tuples of integers. *)
Fixpoint tuple_lt (a b : list nat) : bool :=
  match a, b with
  | _, [] => false
  | [], _ :: _ => true
  | x :: a', y :: b' => (x <? y)%nat || ((x =? y)%nat && tuple_lt a' b')
  end.

(** The body of the loop of [make_annotations]:
    [annotations[k] = v; delattr(cls, k)]. *)
Definition move_prop
    (st : list (string * AttrValue) * list (string * AttrValue))
    (kv : string * AttrValue)
    : list (string * AttrValue) * list (string * AttrValue) :=
  (pydict_del st.1 kv.1, pydict_set st.2 kv.1 kv.2).

(** [make_annotations(cls)]; [version] is [bpy.app.version], [None] when
    [bpy.app] has no such attribute. *)
Definition make_annotations (version : option (list nat)) (cls : PyClass) : PyClass :=
  match version with
  | None => cls
  | Some v =>
      if tuple_lt v [2; 80]%nat then cls
      else
        let bl_props := filter (λ kv, is_tuple kv.2 = true) (cls_dict cls) in
        match bl_props with
        | [] => cls
        | _ :: _ =>
            let annotations := default [] (cls_annotations cls) in
            let st := foldl move_prop (cls_dict cls, annotations) bl_props in
            {| cls_dict := st.1; cls_annotations := Some st.2 |}
        end
  end.

(** ** Notions used to state the properties *)

(** A string with a trailing ["()"] removed when it has one. *)
Definition strip_call_parens (s : string) : string :=
  if PyStr.endswith s "()" then PyStr.drop_last2 s else s.

(** Some character of the string is one of the letters A to Z. *)
Definition has_upper (s : string) : bool :=
  existsb PyStr.is_upper (PyStr.chars s).

(** The codes of the bytes of a string. *)
Definition codes (s : string) : list nat := nat_of_ascii <$> PyStr.chars s.


(** No character of the string is a dot (code 46) or one of the letters A
    to Z (codes 65 to 90). *)
Definition no_dot_no_capital (s : string) : Prop :=
  Forall (λ n, n ≠ 46 ∧ ¬ (65 ≤ n ≤ 90))%nat (codes s).





(** The world after an operator of the preference panel has run:
    [oper_cache] is reset, the preferences and the reports are as given. *)
Definition after_pref_op (w : World) (prefs : list FileAssociation)
    (new_reports : list Report) : World :=
  {| file_extensions := prefs; oper_cache := ∅;
     reports := reports w ++ new_reports; invocations := invocations w |}.

(** The operators of the preference panel, with their input. *)
Inductive PrefOp :=
  | OpReset
  | OpAdd (ext : string)
  | OpRemove (ext : string).

Definition run_pref_op (op : PrefOp) : M Status :=
  match op with
  | OpReset => reset_extensions
  | OpAdd ext => add_extension ext
  | OpRemove ext => remove_extension ext
  end.

(** The worlds reached from an empty preference collection by running
    the operators of the addon: those of the preference panel and the import
    operator, whatever the host, the selection and the way the run ends. *)
Inductive reachable : World → Prop :=
  | reachable_initial w :
      file_extensions w = [] → reachable w
  | reachable_step op w :
      reachable w → reachable (run_pref_op op w).2
  | reachable_import h order self w :
      reachable w → reachable (execute h order self w).2.

(** The collection [reset_extensions] builds: the defaults by sorted key. *)
Definition sorted_defaults : list FileAssociation :=
  [ {| extension := "abc"; operator := "wm.alembic_import" |};
    {| extension := "ase"; operator := "import_ase.read" |};
    {| extension := "bvh"; operator := "import_anim.bvh" |};
    {| extension := "chan"; operator := "import_scene.import_chan" |};
    {| extension := "dae"; operator := "wm.collada_import" |};
    {| extension := "dxf"; operator := "import_scene.dxf" |};
    {| extension := "fbx"; operator := "import_scene.fbx" |};
    {| extension := "mdd"; operator := "import_shape.mdd" |};
    {| extension := "obj"; operator := "import_scene.obj" |};
    {| extension := "py"; operator := "text.open" |};
    {| extension := "rtf"; operator := "text.open" |};
    {| extension := "stl"; operator := "import_mesh.stl" |};
    {| extension := "svg"; operator := "import_curve.svg" |};
    {| extension := "txt"; operator := "text.open" |};
    {| extension := "wrl"; operator := "import_scene.x3d" |};
    {| extension := "x3d"; operator := "import_scene.x3d" |};
    {| extension := "xyz"; operator := "import_mesh.xyz" |} ].

(** A host for the examples.  The properties of the operators follow the
    comments of [import_single]: [import_mesh.stl] and [text.open] take
    [filepath], [directory] and [files]; [import_scene.fbx] takes [filepath]
    and [directory]; [import_scene.obj] takes [filepath];
    [import_image.to_plane] takes [files] and [directory];
    [import_batch.folder] takes [directory] only.  Calling an operator that
    is not registered raises. *)
Definition example_registry : list (string * list string) :=
  [ ("import_mesh", ["stl"]);
    ("import_scene", ["fbx"; "obj"]);
    ("import_image", ["to_plane"]);
    ("import_batch", ["folder"]);
    ("text", ["open"]) ].

Definition example_props : list (string * list string) :=
  [ ("import_mesh.stl", ["filepath"; "directory"; "files"]);
    ("text.open", ["filepath"; "directory"; "files"]);
    ("import_scene.fbx", ["filepath"; "directory"]);
    ("import_scene.obj", ["filepath"]);
    ("import_image.to_plane", ["files"; "directory"]);
    ("import_batch.folder", ["directory"]) ].

Fixpoint table_get (t : list (string * list string)) (k : string) : list string :=
  match t with
  | [] => []
  | (k', v) :: t' => if decide (k' = k) then v else table_get t' k
  end.

Definition example_host : Host :=
  {| ops_dir := example_registry.*1;
     submod_dir := table_get example_registry;
     has_prop := λ oper name, bool_decide (name ∈ table_get example_props oper);
     call_raises := λ _ inv,
       negb (bool_decide (inv_oprs inv ∈ table_get example_registry (inv_base inv))) |}.

(** The world after further operator calls. *)
Definition after_calls (w : World) (invs : list Invocation) : World :=
  {| file_extensions := file_extensions w; oper_cache := oper_cache w;
     reports := reports w; invocations := invocations w ++ invs |}.

(** The state in which [execute] starts its loop: the defaults have been
    installed if the collection was empty, and [self.directory] is set. *)
Definition world_at_import (w : World) : World :=
  if decide (file_extensions w = []) then after_pref_op w sorted_defaults [] else w.

Definition self_at_import (self : ImportOp) : ImportOp :=
  {| filepath := filepath self; files := files self;
     directory := OsPath.dirname (filepath self) |}.

(** The warning of [execute] for the extensions [ext_missing]. *)
Definition missing_warning (ext_missing : list string) : Report :=
  {| report_type := WARNING;
     report_msg := "Extensions not associated: " +:+ PyStr.join ", " ext_missing |}.




(** A selection of the examples, and the world once the defaults are set. *)
Definition example_selection (names : list string) : ImportOp :=
  {| filepath := "/home/u/models/" +:+ default "" (head names);
     files := names; directory := "" |}.

Definition defaults_world : World :=
  {| file_extensions := sorted_defaults; oper_cache := ∅;
     reports := []; invocations := [] |}.



(** What every reachable collection satisfies: the extensions are pairwise
    distinct and each is its own normal form. *)
Definition store_ok (prefs : list FileAssociation) : Prop :=
  NoDup (extension <$> prefs)
  ∧ Forall (λ ext, normalize ext = ext) (extension <$> prefs).

(** The called operators leave the associations as they are. *)
Definition leaves_associations (eff : Effect) : Prop :=
  ∀ inv w, file_extensions (eff inv w) = file_extensions w.

(** Two states in which [execute] reads the same: it looks at the
    preferences only, and the host at the calls made so far. *)
Definition same_import_state (w1 w2 : World) : Prop :=
  file_extensions w1 = file_extensions w2 ∧ invocations w1 = invocations w2.

(** The effect of the addon's own [import_any.reset_extensions], an
    operator without [invoke], so that calling it runs its [execute]; the
    other operators are taken to have no effect. *)
Definition reset_effect : Effect := λ inv w,
  if decide (inv_base inv = "import_any" ∧ inv_oprs inv = "reset_extensions")
  then (reset_extensions w).2 else w.

(** An effect on [oper_cache] only. *)
Definition cache_effect : Effect := λ _ w, with_cache w ∅.

(** The host of the examples with the operators of the addon registered. *)
Definition addon_host : Host :=
  {| ops_dir := "import_any" :: ops_dir example_host;
     submod_dir := λ base,
       if decide (base = "import_any")
       then ["file"; "reset_extensions"; "add_extension"; "remove_extension"]
       else submod_dir example_host base;
     has_prop := has_prop example_host;
     call_raises := λ log inv,
       if decide (inv_base inv = "import_any") then false
       else call_raises example_host log inv |}.

(** Preferences in which the user has associated an extension with
    [import_any.reset_extensions]. *)
Definition resetting_world : World :=
  {| file_extensions :=
       [ {| extension := "foo"; operator := "import_any.reset_extensions" |};
         {| extension := "stl"; operator := "import_scene.obj" |};
         {| extension := "blend"; operator := "import_batch.folder" |} ];
     oper_cache := ∅; reports := []; invocations := [] |}.

(** A world with nothing in it. *)
Definition empty_world : World :=
  {| file_extensions := []; oper_cache := ∅; reports := []; invocations := [] |}.

(** The label for an operator that was looked up. *)
Definition found_label (found : bool) : DrawLabel :=
  if found then Blank else NotFound.

(** The body of the loop of [draw_labels]. *)
Definition draw_row (h : Host) (ext : FileAssociation) (labels : list DrawLabel)
    : M (list DrawLabel) :=
  label ← draw_operator_label h (operator ext);
  mret (labels ++ [label]).

(** The value of a computation that has returned. *)
Definition returned {A} (o : Outcome A) : option A :=
  match o with
  | Return a => Some a
  | Raise _ => None
  end.

(** Unfolds a computation down to its effect on the world. *)
Ltac run_m :=
  unfold add_extension, remove_extension, reset_oper_cache, add_association,
    report, set_prefs, get_prefs, set_cache, get_cache, raise, lift,
    with_prefs, with_cache, with_report,
    mbind, M_bind, mret, M_ret; simpl.

(** * Facts about the string operations *)

Example splitext_obj : OsPath.splitext "model.final.obj" = ("model.final", ".obj").
Proof. reflexivity. Qed.
Example splitext_hidden : OsPath.splitext ".bashrc" = (".bashrc", "").
Proof. reflexivity. Qed.
Example ext_of_numpy : OsPath.ext_of "b.numpy" = "numpy".
Proof. reflexivity. Qed.
Example dirname_ex : OsPath.dirname "/home/u/models/a.obj" = "/home/u/models".
Proof. reflexivity. Qed.
Example dirname_root : OsPath.dirname "/a.obj" = "/".
Proof. reflexivity. Qed.
Example join_ex : OsPath.join "/home/u" "a.obj" = "/home/u/a.obj".
Proof. reflexivity. Qed.
Example split_ex : PyStr.split "." "bpy.ops.import_scene.obj()" = ["bpy"; "ops"; "import_scene"; "obj()"].
Proof. reflexivity. Qed.
Example split_empty : PyStr.split "." "" = [""].
Proof. reflexivity. Qed.
Example sorted_ex : PyStr.sorted ["py"; "abc"; "x3d"; "obj"] = ["abc"; "obj"; "py"; "x3d"].
Proof. reflexivity. Qed.
Example endswith_ex : PyStr.endswith "b.numpy" "py" = true /\ PyStr.endswith "py" "numpy" = false /\ PyStr.endswith "abc" "" = true.
Proof. done. Qed.
Example drop_last2_ex : PyStr.drop_last2 "obj()" = "obj" /\ PyStr.drop_last2 "a" = "".
Proof. done. Qed.

Section string_facts.
Import PyStr.

Lemma app_cons a s t : String a s +:+ t = String a (s +:+ t).
Proof. reflexivity. Qed.

Lemma app_empty_l t : "" +:+ t = t.
Proof. reflexivity. Qed.

Lemma len_app s t : len (s +:+ t) = (len s + len t)%nat.
Proof.
  induction s as [|a s IH]; [done|].
  rewrite app_cons. unfold len in *. simpl. by rewrite IH.
Qed.

Lemma app_empty_r s : s +:+ "" = s.
Proof. induction s as [|a s IH]; [done|]. by rewrite app_cons, IH. Qed.

Lemma app_assoc' s t u : (s +:+ t) +:+ u = s +:+ t +:+ u.
Proof. induction s as [|a s IH]; [done|]. by rewrite !app_cons, IH. Qed.

Lemma slice_to_from n s : slice_to n s +:+ slice_from n s = s.
Proof.
  revert s. induction n as [|n IH]; intros [|a s]; try done.
  simpl. by rewrite app_cons, IH.
Qed.

Lemma slice_from_from n m s : slice_from n (slice_from m s) = slice_from (m + n) s.
Proof.
  revert s. induction m as [|m IH]; intros s; [done|].
  destruct s as [|a s]; simpl; [by destruct n|]. apply IH.
Qed.

Lemma slice_from_len_app p s : slice_from (len p) (p +:+ s) = s.
Proof. induction p as [|a p IH]; [done|]. exact IH. Qed.

Lemma eqb_len_ne s t : len s ≠ len t → String.eqb s t = false.
Proof.
  intros Hne. apply String.eqb_neq. intros ->. done.
Qed.

(** [endswith] unrolled along the string. *)
Lemma endswith_cons a s suf :
  endswith (String a s) suf = String.eqb (String a s) suf || endswith s suf.
Proof.
  unfold endswith.
  destruct (decide (len suf ≤ len s)%nat) as [Hle|Hgt].
  - rewrite (eqb_len_ne (String a s) suf) by (unfold len in *; simpl; lia).
    replace (len (String a s) - len suf)%nat with (S (len s - len suf))
      by (unfold len in *; simpl; lia).
    simpl.
    replace (len suf <=? S (len s))%nat with true
      by (symmetry; apply Nat.leb_le; unfold len in *; simpl in *; lia).
    replace (len suf <=? len s)%nat with true
      by (symmetry; apply Nat.leb_le; lia).
    done.
  - replace (len suf <=? len s)%nat with false
      by (symmetry; apply Nat.leb_gt; lia).
    rewrite andb_false_l, orb_false_r.
    destruct (decide (len suf = S (len s))) as [Heq|Hne].
    + replace (len (String a s) - len suf)%nat with 0%nat
        by (unfold len in *; simpl; lia).
      replace (len suf <=? len (String a s))%nat with true
        by (symmetry; apply Nat.leb_le; unfold len in *; simpl; lia).
      done.
    + replace (len suf <=? len (String a s))%nat with false
        by (symmetry; apply Nat.leb_gt; unfold len in *; simpl; lia).
      rewrite (eqb_len_ne (String a s) suf) by (unfold len in *; simpl; lia).
      done.
Qed.

Lemma endswith_refl s : endswith s s = true.
Proof.
  destruct s as [|a s]; [done|]. rewrite endswith_cons, String.eqb_refl. done.
Qed.

Lemma endswith_slice_from n s : endswith s (slice_from n s) = true.
Proof.
  revert n. induction s as [|a s IH]; intros [|n]; try done.
  - apply endswith_refl.
  - rewrite endswith_cons. simpl. rewrite IH. apply orb_true_r.
Qed.

(** [endswith] is the suffix relation. *)
Lemma endswith_spec s suf : endswith s suf = true ↔ ∃ p, s = p +:+ suf.
Proof.
  split.
  - intros H. exists (slice_to (len s - len suf) s).
    unfold endswith in H. apply andb_true_iff in H as [_ H].
    apply String.eqb_eq in H.
    pose proof (slice_to_from (len s - len suf) s) as E. by rewrite H in E.
  - intros [p ->]. unfold endswith. rewrite len_app.
    replace (len p + len suf - len suf)%nat with (len p) by lia.
    rewrite slice_from_len_app, String.eqb_refl.
    replace (len suf <=? len p + len suf)%nat with true
      by (symmetry; apply Nat.leb_le; lia).
    done.
Qed.

End string_facts.

Section split_facts.
Import PyStr.

Lemma split_nonempty c s : split c s ≠ [].
Proof. destruct s as [|a s]; simpl; [done|]. by repeat case_match. Qed.

(** Joining the pieces with the separator gives the string back. *)
Lemma join_split c s : join (String c "") (split c s) = s.
Proof.
  induction s as [|a s IH]; [done|]. simpl.
  destruct (Ascii.eqb_spec a c) as [->|Hne].
  - unfold join in *. simpl.
    destruct (split c s) as [|p l] eqn:E; [by apply split_nonempty in E|].
    rewrite IH. done.
  - destruct (split c s) as [|p l] eqn:E; [by apply split_nonempty in E|].
    unfold join in *. simpl in *. destruct l as [|q l]; [by rewrite IH|].
    rewrite app_cons. by rewrite IH.
Qed.

Lemma contains_split c s : contains c s = false ↔ split c s = [s].
Proof.
  induction s as [|a s IH]; simpl; [done|].
  destruct (Ascii.eqb a c); simpl.
  - split; [done|]. intros H. injection H as H _. done.
  - rewrite IH. destruct (split c s) as [|p l] eqn:E; [by apply split_nonempty in E|].
    split; [by intros [= -> ->]|]. intros [= -> ->]. done.
Qed.

(** A trailing ["()"] lies within the last dot-separated piece. *)
Lemma endswith_parens_after_dot p d :
  endswith (p +:+ "." +:+ d) "()" = endswith d "()".
Proof.
  induction p as [|a p IH].
  - rewrite app_empty_l, app_cons, app_empty_l, endswith_cons. done.
  - rewrite app_cons, endswith_cons, IH.
    destruct (String.eqb_spec (String a (p +:+ "." +:+ d)) "()") as [E|]; [|done].
    exfalso. injection E as _ E. destruct p as [|b p].
    + by rewrite app_empty_l, app_cons in E.
    + rewrite app_cons in E. injection E as _ E.
      destruct p; [rewrite app_empty_l, app_cons in E|rewrite app_cons in E]; done.
Qed.

(** No piece contains the separator. *)
Lemma split_no_sep c s : Forall (λ piece, contains c piece = false) (split c s).
Proof.
  induction s as [|a s IH]; simpl; [by repeat constructor|].
  destruct (Ascii.eqb a c) eqn:E; [by constructor|].
  destruct (split c s) as [|piece rest].
  - constructor; [|constructor]. simpl. by rewrite E.
  - inversion IH; subst. constructor; [|done]. simpl. by rewrite E.
Qed.

Lemma split4_join a b c d s :
  split dot s = [a; b; c; d] → s = (a +:+ "." +:+ b) +:+ "." +:+ (c +:+ "." +:+ d).
Proof.
  intros E. rewrite <- (join_split dot s) at 1. rewrite E.
  unfold join. simpl. by rewrite !app_assoc'.
Qed.

End split_facts.

Section lower_facts.
Import PyStr.

Lemma lower_char_not_upper a : is_upper (lower_char a) = false.
Proof. by destruct a as [[] [] [] [] [] [] [] []]. Qed.

Lemma lower_char_dot a : Ascii.eqb (lower_char a) dot = Ascii.eqb a dot.
Proof. by destruct a as [[] [] [] [] [] [] [] []]. Qed.

Lemma lower_char_idem a : lower_char (lower_char a) = lower_char a.
Proof. by destruct a as [[] [] [] [] [] [] [] []]. Qed.

Lemma lower_idem s : lower (lower s) = lower s.
Proof. induction s as [|a s IH]; [done|]. simpl. by rewrite lower_char_idem, IH. Qed.

Lemma contains_lower s : contains dot (lower s) = contains dot s.
Proof. induction s as [|a s IH]; [done|]. simpl. by rewrite lower_char_dot, IH. Qed.

Lemma contains_remove_char c s : contains c (remove_char c s) = false.
Proof.
  induction s as [|a s IH]; [done|]. simpl.
  destruct (Ascii.eqb a c) eqn:E; [done|]. simpl. by rewrite E.
Qed.

Lemma remove_char_absent c s : contains c s = false → remove_char c s = s.
Proof.
  induction s as [|a s IH]; [done|]. simpl.
  destruct (Ascii.eqb a c); [done|]. simpl. intros H. by rewrite IH.
Qed.

Lemma has_upper_lower s : has_upper (lower s) = false.
Proof.
  unfold has_upper. induction s as [|a s IH]; [done|]. simpl.
  by rewrite lower_char_not_upper, IH.
Qed.

Lemma chars_lower s : chars (lower s) = lower_char <$> chars s.
Proof. induction s as [|a s IH]; [done|]. simpl. by rewrite IH. Qed.

Lemma chars_remove_char c s : chars (remove_char c s) = filter (λ a, a ≠ c) (chars s).
Proof.
  induction s as [|a s IH]; [done|]. simpl.
  destruct (Ascii.eqb_spec a c) as [->|Hne].
  - rewrite filter_cons_False by naive_solver. done.
  - rewrite filter_cons_True by done. simpl. by rewrite IH.
Qed.

Lemma normalize_no_dot ext : contains dot (normalize ext) = false.
Proof. unfold normalize. by rewrite contains_lower, contains_remove_char. Qed.

Lemma normalize_idem ext : normalize (normalize ext) = normalize ext.
Proof.
  unfold normalize at 1.
  rewrite (remove_char_absent dot (normalize ext)) by apply normalize_no_dot.
  unfold normalize. apply lower_idem.
Qed.

Lemma nat_of_lower_char a :
  nat_of_ascii (lower_char a)
  = (if bool_decide (65 ≤ nat_of_ascii a ≤ 90) then nat_of_ascii a + 32
     else nat_of_ascii a)%nat.
Proof. by destruct a as [[] [] [] [] [] [] [] []]. Qed.

Lemma nat_of_dot a : nat_of_ascii a = 46%nat ↔ a = dot.
Proof.
  split; [|by intros ->].
  intros E. rewrite <- (ascii_nat_embedding a), E. done.
Qed.

Lemma codes_remove_dot s :
  codes (remove_char dot s) = filter (λ n, n ≠ 46%nat) (codes s).
Proof.
  unfold codes. rewrite chars_remove_char.
  induction (chars s) as [|a l IH]; [done|].
  destruct (decide (a = dot)) as [->|Ha].
  - rewrite filter_cons_False by naive_solver. rewrite fmap_cons.
    rewrite filter_cons_False by naive_solver. done.
  - rewrite filter_cons_True by done. rewrite !fmap_cons.
    rewrite filter_cons_True by by rewrite nat_of_dot.
    by rewrite IH.
Qed.

Lemma codes_lower s :
  codes (lower s)
  = (λ n, if bool_decide (65 ≤ n ≤ 90) then n + 32 else n)%nat <$> codes s.
Proof.
  unfold codes. rewrite chars_lower, <- !list_fmap_compose.
  apply list_fmap_ext. intros _ a _. apply nat_of_lower_char.
Qed.

Lemma codes_normalize ext :
  codes (normalize ext)
  = (λ n, if bool_decide (65 ≤ n ≤ 90) then n + 32 else n)%nat
      <$> filter (λ n, n ≠ 46%nat) (codes ext).
Proof. unfold normalize. by rewrite codes_lower, codes_remove_dot. Qed.

Lemma normalize_no_dot_no_capital ext : no_dot_no_capital (normalize ext).
Proof.
  unfold no_dot_no_capital. rewrite codes_normalize.
  apply Forall_fmap, Forall_forall. intros n [Hn _]%list_elem_of_filter. simpl.
  case_bool_decide; lia.
Qed.

Lemma codes_inj s t : codes s = codes t → s = t.
Proof.
  revert t. induction s as [|a s IH]; intros [|b t]; try done.
  unfold codes. simpl. intros [= Hab Hst].
  f_equal; [|by apply IH].
  by rewrite <- (ascii_nat_embedding a), Hab, ascii_nat_embedding.
Qed.

End lower_facts.

Section sorted_facts.
Import PyStr.

Lemma insert_sorted_perm x l : insert_sorted x l ≡ₚ x :: l.
Proof.
  induction l as [|y l IH]; simpl; [done|].
  case_match; [done|]. rewrite IH. apply Permutation_swap.
Qed.

(** [sorted] rearranges its argument into ascending order. *)
Lemma sorted_perm l : sorted l ≡ₚ l.
Proof.
  unfold sorted. induction l as [|x l IH]; simpl; [done|].
  by rewrite insert_sorted_perm, IH.
Qed.

Lemma insert_sorted_HdRel x y l :
  String.le y x → HdRel String.le y l → HdRel String.le y (insert_sorted x l).
Proof.
  intros Hyx Hl. destruct l as [|z l]; simpl; [by constructor|].
  case_match; constructor; [done|]. by inversion Hl.
Qed.

Lemma insert_sorted_Sorted x l :
  Sorted String.le l → Sorted String.le (insert_sorted x l).
Proof.
  induction 1 as [|y l Hl IH Hhd]; simpl; [by repeat constructor|].
  destruct (String.leb x y) eqn:E.
  - constructor; [by constructor|]. constructor. unfold String.le. by rewrite E.
  - constructor; [done|]. apply insert_sorted_HdRel; [|done].
    destruct (total String.le x y) as [Hxy|Hyx]; [|done].
    unfold String.le in Hxy. by rewrite E in Hxy.
Qed.

Lemma sorted_Sorted l : Sorted String.le (sorted l).
Proof.
  unfold sorted. induction l as [|x l IH]; simpl; [constructor|].
  by apply insert_sorted_Sorted.
Qed.

End sorted_facts.

(** * The operator-field auto-fix *)

Example operator_code_update_full :
  operator_code_update "bpy.ops.import_scene.obj()" = "import_scene.obj".
Proof. reflexivity. Qed.

Example operator_code_update_prefix_only :
  operator_code_update "bpy.ops.import_scene.obj" = "import_scene.obj".
Proof. reflexivity. Qed.

Example operator_code_update_parens_only :
  operator_code_update "import_scene.obj()" = "import_scene.obj".
Proof. reflexivity. Qed.

Example operator_code_update_five_parts :
  operator_code_update "a.b.c.d.e" = "a.b.c.d.e".
Proof. reflexivity. Qed.

(** C10: [operator_code_update] on a string with exactly four dot-separated
    components leaves the last two components, joined by a dot, with a
    trailing ["()"] removed; on a string with any other number of components
    it only strips a trailing ["()"] when there is one and changes nothing
    else. *)
Theorem operator_code_update_spec (oper : string) :
  operator_code_update oper =
    match PyStr.split PyStr.dot oper with
    | [_; _; c; d] => strip_call_parens (c +:+ "." +:+ d)
    | _ => strip_call_parens oper
    end.
Proof.
  unfold operator_code_update, strip_call_parens.
  destruct (PyStr.split PyStr.dot oper) as [|a [|b [|c [|d [|e l]]]]] eqn:E;
    try (rewrite decide_False by (simpl; lia); done).
  rewrite decide_True by done. simpl drop. unfold PyStr.join. simpl String.concat.
  assert (PyStr.truthy (c +:+ "." +:+ d) = true) as ->.
  { unfold PyStr.truthy. destruct c; by rewrite ?app_empty_l, app_cons. }
  rewrite (split4_join _ _ _ _ _ E) at 1.
  rewrite endswith_parens_after_dot. simpl. by case_match.
Qed.

(** * The preference store *)

Lemma add_extension_unfold ext w :
  add_extension ext w =
    if bool_decide (normalize ext ∈ (extension <$> file_extensions w))
    then (Return CANCELLED,
          after_pref_op w (file_extensions w)
            [{| report_type := ERROR; report_msg := "Extension already defined" |}])
    else (Return FINISHED,
          {| file_extensions :=
               file_extensions w ++ [{| extension := normalize ext; operator := "" |}];
             oper_cache := ∅; reports := reports w; invocations := invocations w |}).
Proof. run_m. by case_bool_decide. Qed.

Example add_extension_example :
  add_extension ".OBJ"
    {| file_extensions := [{| extension := "fbx"; operator := "import_scene.fbx" |}];
       oper_cache := ∅; reports := []; invocations := [] |}
  = (Return FINISHED,
     {| file_extensions := [{| extension := "fbx"; operator := "import_scene.fbx" |};
                            {| extension := "obj"; operator := "" |}];
        oper_cache := ∅; reports := []; invocations := [] |}).
Proof. reflexivity. Qed.




(** The index and the entry the loop of [remove_extension] stops at. *)
Lemma list_find_extension ext (prefs : list FileAssociation) :
  match list_find (λ fa, extension fa = ext) prefs with
  | Some (i, fa) =>
      ∃ l1 l2, prefs = l1 ++ fa :: l2 ∧ i = length l1 ∧ extension fa = ext
               ∧ ext ∉ (extension <$> l1)
  | None => ext ∉ (extension <$> prefs)
  end.
Proof.
  destruct (list_find _ prefs) as [[i fa]|] eqn:E.
  - apply list_find_Some in E as (Hi & Hfa & Hbefore).
    exists (take i prefs), (drop (S i) prefs).
    assert (i < length prefs)%nat by by eapply lookup_lt_Some.
    split_and!; [|by rewrite length_take; lia|done|].
    + rewrite <- (take_drop_middle prefs i fa) at 1 by done. done.
    + intros (fb & Hfb & Hin)%list_elem_of_fmap.
      apply list_elem_of_lookup in Hin as [j Hj].
      rewrite lookup_take_Some in Hj. destruct Hj as [Hj Hlt].
      by eapply Hbefore.
  - apply list_find_None in E.
    intros (fb & Hfb & Hin)%list_elem_of_fmap.
    rewrite Forall_forall in E. by eapply E.
Qed.

Example remove_extension_example :
  remove_extension "b"
    {| file_extensions := [{| extension := "a"; operator := "x.a" |};
                           {| extension := "b"; operator := "x.b" |};
                           {| extension := "c"; operator := "x.c" |}];
       oper_cache := ∅; reports := []; invocations := [] |}
  = (Return FINISHED,
     {| file_extensions := [{| extension := "a"; operator := "x.a" |};
                            {| extension := "c"; operator := "x.c" |}];
        oper_cache := ∅; reports := []; invocations := [] |}).
Proof. reflexivity. Qed.

(** C9: [remove_extension] either finds the requested extension, removes the
    first entry that has it, keeps every other entry in place and returns
    FINISHED without a report; or does not find it, reports one error,
    returns CANCELLED and leaves the collection as it was. *)
Theorem remove_extension_spec (ext : string) (w : World) :
  (∃ l1 fa l2,
      file_extensions w = l1 ++ fa :: l2
      ∧ extension fa = ext
      ∧ (ext ∉ extension <$> l1)
      ∧ remove_extension ext w = (Return FINISHED, after_pref_op w (l1 ++ l2) []))
  ∨ ((ext ∉ extension <$> file_extensions w)
     ∧ remove_extension ext w =
         (Return CANCELLED,
          after_pref_op w (file_extensions w)
            [{| report_type := ERROR;
                report_msg := "Extension " +:+ ext +:+ " missing, cannot remove" |}])).
Proof.
  pose proof (list_find_extension ext (file_extensions w)) as Hfind.
  run_m. destruct (list_find _ (file_extensions w)) as [[i fa]|]; simpl.
  - left. destruct Hfind as (l1 & l2 & Hprefs & -> & Hext & Hbefore).
    exists l1, fa, l2. split_and!; try done.
    unfold after_pref_op. rewrite Hprefs, app_nil_r. do 2 f_equal.
    rewrite delete_take_drop, take_app_length. f_equal.
    rewrite (cons_middle fa l1 l2), app_assoc.
    apply drop_app_length'. rewrite length_app. simpl. lia.
  - right. done.
Qed.

Lemma reset_extensions_unfold w :
  reset_extensions w = (Return FINISHED, after_pref_op w sorted_defaults []).
Proof. unfold after_pref_op. rewrite app_nil_r. reflexivity. Qed.

Lemma after_pref_op_prefs w prefs rs : file_extensions (after_pref_op w prefs rs) = prefs.
Proof. done. Qed.

(** The auto-fix of the operator field leaves the defaults and the empty
    operator of a new entry as they are. *)
Lemma sorted_defaults_stable :
  Forall (λ fa, operator_code_update (operator fa) = operator fa) sorted_defaults
  ∧ operator_code_update "" = "".
Proof. split; [|done]. by repeat constructor. Qed.

(** * Operator lookup *)

Example operator_exists_registered :
  (operator_exists example_host "import_scene.obj" true empty_world).1 = Return true.
Proof. reflexivity. Qed.

Example operator_exists_unregistered :
  (operator_exists example_host "wm.collada_import" true empty_world).1 = Return false.
Proof. reflexivity. Qed.

Example operator_exists_no_dot :
  (operator_exists example_host "import_scene" true empty_world).1 = Return false.
Proof. reflexivity. Qed.

Lemma split_one_piece ref x : PyStr.split PyStr.dot ref = [x] → x = ref.
Proof.
  intros E. pose proof (join_split PyStr.dot ref) as J. by rewrite E in J.
Qed.

(** C6, as the code has it: [operator_exists(ref)] terminates on every
    string; it returns [False] when [ref] contains no dot (exactly when the
    split gives one piece); when the split gives two pieces it returns, and
    caches, whether they name an operator of the host's registry; when the
    split gives more than two pieces the unpacking raises [ValueError]. *)
Theorem operator_exists_spec (h : Host) (ref : string) (w : World) :
  (PyStr.contains PyStr.dot ref = false ↔ PyStr.split PyStr.dot ref = [ref])
  ∧ operator_exists h ref true w =
      match PyStr.split PyStr.dot ref with
      | [_] => (Return false, with_cache w ∅)
      | [base; oprs] =>
          let res := bool_decide (base ∈ ops_dir h ∧ oprs ∈ submod_dir h base) in
          (Return res, with_cache w {[ ref := res ]})
      | _ => (Raise ValueError, with_cache w ∅)
      end.
Proof.
  split; [apply contains_split|].
  unfold operator_exists. run_m.
  destruct (PyStr.contains PyStr.dot ref) eqn:Hdot; simpl.
  - destruct (PyStr.split PyStr.dot ref) as [|a [|b [|c l]]] eqn:E; try done.
    + pose proof (split_one_piece _ _ E) as ->.
      apply contains_split in E. congruence.
    + simpl. rewrite insert_empty. by rewrite bool_decide_and.
  - apply contains_split in Hdot. by rewrite Hdot.
Qed.

(** C6 as stated fails: on a reference with two dots [operator_exists]
    raises instead of returning a boolean. *)
Lemma operator_exists_raises :
  ¬ (∀ ref, ∃ b : bool,
       (operator_exists example_host ref true empty_world).1 = Return b).
Proof.
  intros H. destruct (H "bpy.ops.import_scene.obj") as [b Hb].
  vm_compute in Hb. discriminate.
Qed.

(** The preferences panel keeps such references away from
    [operator_exists]: drawing the label of an entry never raises. *)
Lemma draw_operator_label_returns h oper w :
  ∃ label w', draw_operator_label h oper w = (Return label, w').
Proof.
  unfold draw_operator_label.
  destruct (PyStr.truthy oper); simpl; [|by eexists _, _].
  destruct (PyStr.contains PyStr.dot oper) eqn:Hdot; simpl; [|by eexists _, _].
  destruct (2 <? length (PyStr.split PyStr.dot oper))%nat eqn:Hlen; [by eexists _, _|].
  apply Nat.ltb_ge in Hlen.
  unfold operator_exists. run_m. rewrite Hdot. simpl.
  destruct (oper_cache w !! oper); [by eexists _, _|].
  destruct (PyStr.split PyStr.dot oper) as [|a [|b [|c l]]] eqn:E;
    simpl in Hlen; try lia; try by eexists _, _.
  - by apply split_nonempty in E.
  - pose proof (split_one_piece _ _ E) as ->.
    apply contains_split in E. congruence.
Qed.

(** * The import operator *)

Section import_facts.
Context (h : Host).

Lemma splitext_suffix p :
  (OsPath.splitext p).2 = "" ∨ ∃ k, (OsPath.splitext p).2 = PyStr.slice_from k p.
Proof. unfold OsPath.splitext. case_match; simpl; eauto. Qed.

(** The extension [execute] computes for a file is a suffix of its name,
    so the file is among those [import_single] takes for that extension. *)
Lemma ext_of_endswith name : PyStr.endswith name (OsPath.ext_of name) = true.
Proof.
  unfold OsPath.ext_of. destruct (splitext_suffix name) as [->|[k ->]].
  - apply endswith_spec. exists name. by rewrite app_empty_r.
  - rewrite slice_from_from. apply endswith_slice_from.
Qed.

Lemma matching_files_ext self name :
  name ∈ files self → name ∈ matching_files self (OsPath.ext_of name).
Proof.
  intros Hin. apply list_elem_of_filter. split; [apply ext_of_endswith|done].
Qed.

Lemma matching_files_self_at_import self ext :
  matching_files (self_at_import self) ext = matching_files self ext.
Proof. done. Qed.

Lemma after_calls_nil w : after_calls w [] = w.
Proof. destruct w. unfold after_calls. simpl. by rewrite app_nil_r. Qed.

Lemma after_calls_app w invs1 invs2 :
  after_calls (after_calls w invs1) invs2 = after_calls w (invs1 ++ invs2).
Proof. unfold after_calls. simpl. by rewrite app_assoc. Qed.

Lemma import_single_unfold self ext w :
  import_single h self ext w =
    match prepare_call h self (file_extensions w) ext with
    | Return inv =>
        (if call_raises h (invocations w) inv then Raise (OperatorError inv)
         else Return (),
         after_calls w [inv])
    | Raise e => (Raise e, w)
    end.
Proof.
  unfold import_single, call. run_m.
  destruct (prepare_call _ _ _ _); [|done]. by case_match.
Qed.

Lemma for_each_cons {A S} (x : A) l (acc : S) body w :
  for_each (x :: l) acc body w =
    match body x acc w with
    | (Return acc', w') => for_each l acc' body w'
    | (Raise e, w') => (Raise e, w')
    end.
Proof. done. Qed.

Lemma for_each_app {A S} (l1 l2 : list A) (acc : S) body w :
  for_each (l1 ++ l2) acc body w =
    match for_each l1 acc body w with
    | (Return acc', w') => for_each l2 acc' body w'
    | (Raise e, w') => (Raise e, w')
    end.
Proof.
  revert acc w. induction l1 as [|x l1 IH]; intros acc w; [done|].
  rewrite <- app_comm_cons, !for_each_cons.
  destruct (body x acc w) as [[acc'|e] w']; [apply IH|done].
Qed.

Lemma execute_step_unfold self curr ext acc w :
  execute_step h self curr ext acc w =
    if bool_decide (ext ∈ curr) then
      match prepare_call h self (file_extensions w) ext with
      | Return inv =>
          (if call_raises h (invocations w) inv then Raise (OperatorError inv)
           else Return acc,
           after_calls w [inv])
      | Raise e => (Raise e, w)
      end
    else (Return (acc ++ [ext]), w).
Proof.
  unfold execute_step. case_bool_decide; [|done].
  unfold mbind, M_bind. rewrite import_single_unfold.
  destruct (prepare_call _ _ _ _); [|done].
  by destruct (call_raises _ _ _).
Qed.

(** A loop of [execute] that ends without an exception has made one call
    for each associated extension, in order, and has collected the others. *)
Lemma for_each_returns self curr order acc w m w' :
  for_each order acc (execute_step h self curr) w = (Return m, w') →
  m = acc ++ filter (λ e, e ∉ curr) order
  ∧ ∃ invs,
      w' = after_calls w invs
      ∧ Forall2 (λ ext inv, prepare_call h self (file_extensions w) ext = Return inv)
          (filter (λ e, e ∈ curr) order) invs.
Proof.
  revert acc w. induction order as [|ext order IH]; intros acc w.
  - intros [= -> ->]. split; [by rewrite app_nil_r|].
    exists []. by rewrite after_calls_nil.
  - rewrite for_each_cons, execute_step_unfold.
    case_bool_decide as Hext.
    + destruct (prepare_call _ _ _ _) as [inv|e] eqn:Hprep; [|done].
      destruct (call_raises _ _ _); [done|].
      intros Hrest. destruct (IH _ _ Hrest) as (-> & invs & -> & Hall).
      rewrite filter_cons_False by (intros Hn; by apply Hn).
      rewrite filter_cons_True by done.
      split; [done|]. exists (inv :: invs).
      rewrite after_calls_app. split; [done|]. by constructor.
    + intros Hrest. destruct (IH _ _ Hrest) as (-> & invs & -> & Hall).
      rewrite filter_cons_True by done.
      rewrite filter_cons_False by done.
      split; [by rewrite <- app_assoc|]. by exists invs.
Qed.

Lemma world_at_import_unfold w :
  (if decide (file_extensions w = []) then (reset_extensions ;; mret ()) else mret ()) w
  = (Return (), world_at_import w).
Proof.
  unfold world_at_import. case_decide; [|done].
  unfold mbind, M_bind. by rewrite reset_extensions_unfold.
Qed.

Lemma world_at_import_invocations w :
  invocations (world_at_import w) = invocations w.
Proof. unfold world_at_import. by destruct (decide (file_extensions w = [])). Qed.

Lemma execute_unfold order self w :
  files self ≠ [] →
  execute h order self w =
    match for_each order []
            (execute_step h (self_at_import self)
               (extension <$> file_extensions (world_at_import w)))
            (world_at_import w) with
    | (Return ext_missing, w') =>
        (Return FINISHED,
         if decide (ext_missing = []) then w'
         else with_report w' (missing_warning ext_missing))
    | (Raise e, w') => (Raise e, w')
    end.
Proof.
  intros Hne. unfold execute.
  unfold mbind at 1, M_bind at 1, get_prefs at 1. simpl.
  unfold mbind at 1, M_bind at 1. rewrite world_at_import_unfold.
  unfold mbind at 1, M_bind at 1, get_prefs at 1. simpl.
  destruct (files self) as [|f fs] eqn:Hfiles; [done|].
  unfold mbind at 1, M_bind at 1. simpl.
  unfold mbind at 1, M_bind at 1. unfold self_at_import. rewrite Hfiles.
  destruct (for_each _ _ _ _) as [[ext_missing|e] w']; [|done].
  case_decide; done.
Qed.

Lemma execute_empty_selection order self w :
  files self = [] →
  execute h order self w = (Raise IndexError, world_at_import w).
Proof.
  intros Hnil. unfold execute.
  unfold mbind at 1, M_bind at 1, get_prefs at 1. simpl.
  unfold mbind at 1, M_bind at 1. rewrite world_at_import_unfold.
  unfold mbind at 1, M_bind at 1, get_prefs at 1. simpl.
  rewrite Hnil. done.
Qed.

(** The loop of [execute] leaves the preferences as they are, however it
    ends. *)
Lemma for_each_prefs self curr order acc w :
  file_extensions (for_each order acc (execute_step h self curr) w).2
  = file_extensions w.
Proof.
  revert acc w. induction order as [|ext order IH]; intros acc w; [done|].
  rewrite for_each_cons, execute_step_unfold.
  case_bool_decide; [|apply IH].
  destruct (prepare_call _ _ _ _); [|done].
  destruct (call_raises _ _ _); [done|]. by rewrite IH.
Qed.

Lemma execute_prefs order self w :
  file_extensions (execute h order self w).2
  = file_extensions (world_at_import w).
Proof.
  destruct (decide (files self = [])) as [Hnil|Hne].
  - by rewrite execute_empty_selection.
  - rewrite execute_unfold by done.
    pose proof (for_each_prefs (self_at_import self)
                  (extension <$> file_extensions (world_at_import w)) order []
                  (world_at_import w)) as Hprefs.
    destruct (for_each _ _ _ _) as [[m|e] w']; simpl in *; [|done].
    by case_decide.
Qed.

End import_facts.

(** ** The reachable preference collections *)

Section store_invariant.

Lemma store_ok_nil : store_ok [].
Proof. split; constructor. Qed.

Lemma store_ok_defaults : store_ok sorted_defaults.
Proof.
  split.
  - apply (bool_decide_unpack _). by vm_compute.
  - by repeat constructor.
Qed.

Lemma store_ok_add prefs ext :
  store_ok prefs →
  normalize ext ∉ (extension <$> prefs) →
  store_ok (prefs ++ [{| extension := normalize ext; operator := "" |}]).
Proof.
  intros [Hnd Hnorm] Hnew. split; rewrite fmap_app; simpl.
  - apply NoDup_app. split_and!; [done| |apply NoDup_singleton].
    intros x Hx ->%list_elem_of_singleton. done.
  - apply Forall_app. split; [done|]. constructor; [|done].
    apply normalize_idem.
Qed.

Lemma store_ok_delete prefs i : store_ok prefs → store_ok (delete i prefs).
Proof.
  intros [Hnd Hnorm].
  assert (extension <$> delete i prefs `sublist_of` extension <$> prefs) as Hsub
    by (rewrite list_fmap_delete; apply sublist_delete).
  split.
  - by eapply sublist_NoDup.
  - rewrite Forall_forall in Hnorm |- *. intros ext Hext. apply Hnorm.
    by eapply elem_of_sublist.
Qed.

Lemma reachable_store_ok w : reachable w → store_ok (file_extensions w).
Proof.
  induction 1 as [w Hw|op w Hreach IH|h order self w Hreach IH].
  - rewrite Hw. apply store_ok_nil.
  - destruct op as [|ext|ext]; unfold run_pref_op.
    + rewrite reset_extensions_unfold. apply store_ok_defaults.
    + rewrite add_extension_unfold. case_bool_decide; simpl; [done|].
      by apply store_ok_add.
    + run_m. destruct (list_find _ (file_extensions w)) as [[i fa]|]; simpl; [|done].
      by apply store_ok_delete.
  - rewrite execute_prefs. unfold world_at_import.
    case_decide; [apply store_ok_defaults|done].
Qed.

(** With pairwise distinct extensions, the lookup of [import_single] finds
    the operator of each stored entry. *)
Lemma find_operator_NoDup prefs fa :
  NoDup (extension <$> prefs) → fa ∈ prefs →
  find_operator prefs (extension fa) = Some (operator fa).
Proof.
  induction prefs as [|fb prefs IH]; simpl; [by intros _ ?%elem_of_nil|].
  intros [Hfb Hnd]%NoDup_cons [->|Hin]%elem_of_cons.
  - by rewrite decide_True.
  - rewrite decide_False; [by apply IH|].
    intros E. apply Hfb. rewrite E. by apply list_elem_of_fmap_2.
Qed.

End store_invariant.

(** C4: in every state reached from the empty collection through
    [reset_extensions], [add_extension] and [remove_extension] (and runs of
    the import operator, which may install the defaults), the stored
    extensions are pairwise distinct, so that the collection is a function
    from extension to operator; and [add_extension] called there with an
    extension that is already stored reports an error, returns CANCELLED and
    leaves the collection as it is. *)
Theorem preference_store_is_a_mapping (w : World) :
  reachable w →
  NoDup (extension <$> file_extensions w)
  ∧ (∀ fa, fa ∈ file_extensions w →
       find_operator (file_extensions w) (extension fa) = Some (operator fa))
  ∧ (∀ ext, ext ∈ (extension <$> file_extensions w) →
       add_extension ext w =
         (Return CANCELLED,
          after_pref_op w (file_extensions w)
            [{| report_type := ERROR; report_msg := "Extension already defined" |}])).
Proof.
  intros [Hnd Hnorm]%reachable_store_ok. split_and!; [done|..].
  - intros fa Hfa. by apply find_operator_NoDup.
  - intros ext Hext. rewrite add_extension_unfold.
    rewrite Forall_forall in Hnorm. rewrite (Hnorm ext Hext).
    by rewrite bool_decide_eq_true_2.
Qed.

Lemma preference_store_is_a_mapping_witness :
  let w := (run_pref_op (OpRemove "py")
             (run_pref_op (OpAdd ".Blend")
               (run_pref_op OpReset empty_world).2).2).2 in
  reachable w
  ∧ NoDup (extension <$> file_extensions w)
  ∧ add_extension "blend" w =
      (Return CANCELLED,
       after_pref_op w (file_extensions w)
         [{| report_type := ERROR; report_msg := "Extension already defined" |}]).
Proof.
  intros w.
  assert (reachable w) as Hw.
  { unfold w. do 3 apply reachable_step. by apply reachable_initial. }
  split; [exact Hw|].
  destruct (preference_store_is_a_mapping w Hw) as (Hnd & _ & Hadd).
  split; [exact Hnd|].
  apply Hadd. apply (bool_decide_unpack _). by vm_compute.
Defined.

(** ** Dispatch of one extension *)

Example import_single_stl :
  import_single example_host
    (self_at_import (example_selection ["a.stl"; "b.stl"])) "stl" defaults_world
  = (Return (),
     after_calls defaults_world
       [{| inv_base := "import_mesh"; inv_oprs := "stl";
           inv_args := ["INVOKE_DEFAULT"];
           inv_kwargs :=
             [("filepath", VStr "/home/u/models/a.stl");
              ("directory", VStr "/home/u/models");
              ("files", VFiles [[("name", "a.stl")]; [("name", "b.stl")]])] |}]).
Proof. reflexivity. Qed.

Example import_single_fbx :
  import_single example_host
    (self_at_import (example_selection ["a.fbx"; "b.fbx"])) "fbx" defaults_world
  = (Return (),
     after_calls defaults_world
       [{| inv_base := "import_scene"; inv_oprs := "fbx";
           inv_args := ["INVOKE_DEFAULT"];
           inv_kwargs :=
             [("filepath", VStr "a.fbx");
              ("directory", VStr "/home/u/models")] |}]).
Proof. reflexivity. Qed.

(** C3: when the association of [ext] names an operator [base.oprs] and
    some selected file matches, [import_single] makes one call of that
    operator with ['INVOKE_DEFAULT'] and keyword arguments chosen by the
    properties the operator exposes: filepath, directory and files give all
    three (the filepath joined from the directory and the first matching
    file, one name entry per matching file); filepath and directory without
    files give those two; filepath without directory gives the filepath
    alone; files and directory without filepath give those two. *)
Theorem import_single_dispatch (h : Host) (self : ImportOp) (ext : string)
    (w : World) (oper base oprs f0 : string) (rest : list string) :
  find_operator (file_extensions w) ext = Some oper →
  PyStr.split PyStr.dot oper = [base; oprs] →
  matching_files self ext = f0 :: rest →
  let dir := directory self in
  let exposes := has_prop h oper in
  ∃ kwargs,
    import_single h self ext w =
      call h {| inv_base := base; inv_oprs := oprs;
                inv_args := ["INVOKE_DEFAULT"]; inv_kwargs := kwargs |} w
    ∧ (exposes "filepath" = true → exposes "directory" = true →
       exposes "files" = true →
         kwargs = [ ("filepath", VStr (OsPath.join dir f0));
                    ("directory", VStr dir);
                    ("files", VFiles (name_entry <$> f0 :: rest)) ])
    ∧ (exposes "filepath" = true → exposes "directory" = true →
       exposes "files" = false →
         kwargs = [ ("filepath", VStr f0); ("directory", VStr dir) ])
    ∧ (exposes "filepath" = true → exposes "directory" = false →
         kwargs = [ ("filepath", VStr (OsPath.join dir f0)) ])
    ∧ (exposes "filepath" = false → exposes "directory" = true →
       exposes "files" = true →
         kwargs = [ ("files", VFiles (name_entry <$> f0 :: rest));
                    ("directory", VStr dir) ])
    ∧ (exposes "filepath" = false →
       exposes "directory" && exposes "files" = false →
         kwargs = []).
Proof.
  intros Hoper Hsplit Hfiles dir exposes.
  assert (∃ kwargs, build_kwargs h self oper (f0 :: rest) = Return kwargs)
    as [kwargs Hkw].
  { unfold build_kwargs. repeat case_match; by eexists. }
  exists kwargs. split.
  - rewrite import_single_unfold. unfold prepare_call.
    rewrite Hoper, Hfiles. unfold mbind, Outcome_bind. rewrite Hkw, Hsplit.
    unfold call, mret, Outcome_ret. by destruct (call_raises _ _ _).
  - unfold build_kwargs in Hkw. fold dir in Hkw.
    fold (exposes "filepath") (exposes "directory") (exposes "files") in Hkw.
    destruct (exposes "filepath"), (exposes "directory"), (exposes "files");
      simpl in Hkw; injection Hkw as <-; split_and!; intros; done.
Qed.

Lemma import_single_dispatch_witness :
  ∃ kwargs,
    import_single example_host
      (self_at_import (example_selection ["a.stl"; "b.stl"])) "stl" defaults_world
    = call example_host
        {| inv_base := "import_mesh"; inv_oprs := "stl";
           inv_args := ["INVOKE_DEFAULT"]; inv_kwargs := kwargs |} defaults_world
    ∧ kwargs = [ ("filepath", VStr "/home/u/models/a.stl");
                 ("directory", VStr "/home/u/models");
                 ("files", VFiles [[("name", "a.stl")]; [("name", "b.stl")]]) ].
Proof.
  destruct (import_single_dispatch example_host
              (self_at_import (example_selection ["a.stl"; "b.stl"])) "stl"
              defaults_world "import_mesh.stl" "import_mesh" "stl" "a.stl" ["b.stl"])
    as (kwargs & Hcall & Hall & _); [reflexivity..|].
  exists kwargs. split; [exact Hcall|].
  rewrite Hall by reflexivity. reflexivity.
Defined.

(** ** No recovery from a failing operator *)

(** C7: when the operator called for extension [ext] raises, after the
    extensions before it were handled without error, [execute] ends with
    that exception: the state is the one reached so far with the failing
    call recorded once, nothing done before is undone, no warning is
    reported, and the extensions after [ext] are not looked at. *)
Theorem execute_no_recovery (h : Host) (self : ImportOp) (w w1 : World)
    (pre post ext_missing : list string) (ext : string) (inv : Invocation) :
  files self ≠ [] →
  let w0 := world_at_import w in
  let curr_exts := extension <$> file_extensions w0 in
  for_each pre [] (execute_step h (self_at_import self) curr_exts) w0
    = (Return ext_missing, w1) →
  ext ∈ curr_exts →
  prepare_call h (self_at_import self) (file_extensions w1) ext = Return inv →
  call_raises h (invocations w1) inv = true →
  execute h (pre ++ ext :: post) self w
    = (Raise (OperatorError inv), with_invocation w1 inv)
  ∧ invocations w `prefix_of` invocations w1.
Proof.
  intros Hne w0 curr_exts Hpre Hext Hprep Hraise. split.
  - rewrite execute_unfold by done. fold w0 curr_exts.
    rewrite for_each_app, Hpre, for_each_cons, execute_step_unfold.
    rewrite bool_decide_eq_true_2 by done. rewrite Hprep, Hraise. done.
  - apply for_each_returns in Hpre as (_ & invs & -> & _).
    simpl. etrans; [|apply prefix_app_r; done].
    unfold w0, world_at_import. by case_decide.
Qed.

Lemma execute_no_recovery_witness :
  let self := example_selection ["a.stl"; "b.dae"; "c.obj"] in
  let inv_stl :=
    {| inv_base := "import_mesh"; inv_oprs := "stl"; inv_args := ["INVOKE_DEFAULT"];
       inv_kwargs := [("filepath", VStr "/home/u/models/a.stl");
                      ("directory", VStr "/home/u/models");
                      ("files", VFiles [[("name", "a.stl")]])] |} in
  let inv_dae :=
    {| inv_base := "wm"; inv_oprs := "collada_import"; inv_args := ["INVOKE_DEFAULT"];
       inv_kwargs := [] |} in
  execute example_host (["stl"] ++ "dae" :: ["obj"]) self empty_world
  = (Raise (OperatorError inv_dae),
     with_invocation (after_calls defaults_world [inv_stl]) inv_dae).
Proof.
  intros self inv_stl inv_dae.
  apply (execute_no_recovery example_host self empty_world
           (after_calls defaults_world [inv_stl]) ["stl"] ["obj"] [] "dae" inv_dae).
  - discriminate.
  - reflexivity.
  - apply (bool_decide_unpack _). by vm_compute.
  - reflexivity.
  - reflexivity.
Defined.

(** ** Runs of [execute] that end without an exception *)

Section execute_returns.
Context (h : Host) (order : list string) (self : ImportOp) (w : World).

Lemma execute_returns :
  files self ≠ [] →
  (∀ e, (execute h order self w).1 ≠ Raise e) →
  let w0 := world_at_import w in
  let curr_exts := extension <$> file_extensions w0 in
  let ext_missing := filter (λ e, e ∉ curr_exts) order in
  ∃ invs,
    execute h order self w =
      (Return FINISHED,
       if decide (ext_missing = []) then after_calls w0 invs
       else with_report (after_calls w0 invs) (missing_warning ext_missing))
    ∧ Forall2
        (λ ext inv,
           prepare_call h (self_at_import self) (file_extensions w0) ext = Return inv)
        (filter (λ e, e ∈ curr_exts) order) invs.
Proof.
  intros Hne Hret w0 curr_exts ext_missing.
  rewrite execute_unfold in Hret |- * by done.
  fold w0 curr_exts in Hret |- *.
  destruct (for_each _ _ _ _) as [[m|e] w'] eqn:Hloop; [|by edestruct Hret].
  apply for_each_returns in Hloop as (-> & invs & -> & Hall).
  exists invs. done.
Qed.

Lemma find_operator_Some prefs ext :
  ext ∈ (extension <$> prefs) ↔ is_Some (find_operator prefs ext).
Proof.
  induction prefs as [|fa prefs IH]; simpl.
  - split; [by intros ?%elem_of_nil|by intros [? ?]].
  - case_decide as Hfa; [subst; split; [by eexists|left]|].
    rewrite <- IH, elem_of_cons. split; [|by right].
    by intros [E|Hin]; [symmetry in E|].
Qed.

Lemma order_elem_of e :
  set_iteration (selected_extensions self) order →
  e ∈ order ↔ ∃ name, name ∈ files self ∧ OsPath.ext_of name = e.
Proof.
  unfold set_iteration, selected_extensions. intros Hperm.
  rewrite Hperm, elem_of_remove_dups, list_elem_of_fmap.
  split; intros (name & H1 & H2); exists name; done.
Qed.



End execute_returns.

(** A run ends without an exception when the host raises on no call and
    every association names its operator as [base.oprs]. *)
Section execute_without_exception.
Context (h : Host).

Lemma find_operator_elem_of prefs ext oper :
  find_operator prefs ext = Some oper →
  ∃ fa, fa ∈ prefs ∧ extension fa = ext ∧ operator fa = oper.
Proof.
  induction prefs as [|fa prefs IH]; simpl; [done|].
  case_decide as Hfa.
  - intros [= <-]. exists fa. split; [by left|done].
  - intros (fb & Hin & Hfb)%IH. exists fb. split; [by right|done].
Qed.

Lemma build_kwargs_returns self oper f0 rest :
  ∃ kwargs, build_kwargs h self oper (f0 :: rest) = Return kwargs.
Proof. unfold build_kwargs. repeat case_match; by eexists. Qed.

Lemma prepare_call_returns self prefs name :
  name ∈ files self →
  Forall (λ fa, length (PyStr.split PyStr.dot (operator fa)) = 2%nat) prefs →
  OsPath.ext_of name ∈ (extension <$> prefs) →
  ∃ inv, prepare_call h self prefs (OsPath.ext_of name) = Return inv.
Proof.
  intros Hname Hwf [oper Hoper]%find_operator_Some.
  unfold prepare_call. rewrite Hoper.
  destruct (matching_files self (OsPath.ext_of name)) as [|f0 rest] eqn:Hfiles.
  { apply matching_files_ext in Hname. rewrite Hfiles in Hname.
    by apply elem_of_nil in Hname. }
  destruct (build_kwargs_returns self oper f0 rest) as [kwargs ->].
  apply find_operator_elem_of in Hoper as (fa & Hfa & _ & <-).
  rewrite Forall_forall in Hwf. specialize (Hwf fa Hfa).
  destruct (PyStr.split PyStr.dot (operator fa)) as [|a [|b [|c l]]];
    simpl in Hwf; try lia.
  by eexists.
Qed.

Lemma for_each_without_exception self curr order acc w :
  (∀ log inv, call_raises h log inv = false) →
  (∀ ext, ext ∈ order → ext ∈ curr →
     ∃ inv, prepare_call h self (file_extensions w) ext = Return inv) →
  ∃ m w', for_each order acc (execute_step h self curr) w = (Return m, w').
Proof.
  intros Hcalls. revert acc w.
  induction order as [|ext order IH]; intros acc w Hprep; [by eexists _, _|].
  rewrite for_each_cons, execute_step_unfold.
  case_bool_decide as Hext.
  - destruct (Hprep ext) as [inv ->]; [by left|done|].
    rewrite Hcalls. apply IH. intros ? ? ?. apply Hprep; [by right|done].
  - apply IH. intros ? ? ?. apply Hprep; [by right|done].
Qed.

Lemma execute_without_exception order self w :
  files self ≠ [] →
  set_iteration (selected_extensions self) order →
  (∀ log inv, call_raises h log inv = false) →
  Forall (λ fa, length (PyStr.split PyStr.dot (operator fa)) = 2%nat)
    (file_extensions (world_at_import w)) →
  (execute h order self w).1 = Return FINISHED.
Proof.
  intros Hne Horder Hcalls Hwf. rewrite execute_unfold by done.
  destruct (for_each_without_exception (self_at_import self)
              (extension <$> file_extensions (world_at_import w)) order []
              (world_at_import w) Hcalls) as (m & w' & ->); [|done].
  intros ext Hin Hext.
  apply (order_elem_of order self ext Horder) in Hin as (name & Hname & <-).
  by apply prepare_call_returns.
Qed.

End execute_without_exception.

Example execute_mixed_selection :
  execute example_host ["stl"; "zzz"; "fbx"; "png"]
    (example_selection ["a.stl"; "notes.zzz"; "b.fbx"; "c.png"; "d.stl"])
    empty_world
  = (Return FINISHED,
     with_report
       (after_calls defaults_world
          [ {| inv_base := "import_mesh"; inv_oprs := "stl";
               inv_args := ["INVOKE_DEFAULT"];
               inv_kwargs :=
                 [("filepath", VStr "/home/u/models/a.stl");
                  ("directory", VStr "/home/u/models");
                  ("files", VFiles [[("name", "a.stl")]; [("name", "d.stl")]])] |};
            {| inv_base := "import_scene"; inv_oprs := "fbx";
               inv_args := ["INVOKE_DEFAULT"];
               inv_kwargs :=
                 [("filepath", VStr "b.fbx");
                  ("directory", VStr "/home/u/models")] |} ])
       (missing_warning ["zzz"; "png"])).
Proof. reflexivity. Qed.




(** ** Which files reach the operator *)





(** An operator that exposes [filepath] without [files] receives the first
    matching file only. *)
Example execute_filepath_only :
  invocations
    (execute example_host ["obj"] (example_selection ["a.obj"; "b.obj"]) empty_world).2
  = [{| inv_base := "import_scene"; inv_oprs := "obj";
        inv_args := ["INVOKE_DEFAULT"];
        inv_kwargs := [("filepath", VStr "/home/u/models/a.obj")] |}].
Proof. reflexivity. Qed.

(** ** Grouping by extension *)

(** No selected file of extension [ext] is left out of the files
    [import_single] takes for [ext]. *)
Lemma matching_files_complete self ext name :
  name ∈ files self → OsPath.ext_of name = ext → name ∈ matching_files self ext.
Proof. intros Hin <-. by apply matching_files_ext. Qed.

(** The files taken are those whose name ends with [ext]. *)
Lemma matching_files_spec self ext name :
  name ∈ matching_files self ext ↔
  name ∈ files self ∧ ∃ p, name = p +:+ ext.
Proof.
  unfold matching_files. rewrite list_elem_of_filter, endswith_spec.
  split; intros [? ?]; done.
Qed.

(** C2 fails on the code: [import_single] takes the files whose name ends
    with [ext], not those whose extension is [ext].  With [a.py] and
    [b.numpy] selected, the step for [py] takes [b.numpy] as well, whose
    extension is [numpy], and passes it to the operator for [py], while
    [numpy] is reported as not associated. *)
Theorem import_single_takes_other_extension :
  let self := example_selection ["a.py"; "b.numpy"] in
  OsPath.ext_of "b.numpy" = "numpy"
  ∧ matching_files self "py" = ["a.py"; "b.numpy"]
  ∧ execute example_host ["py"; "numpy"] self empty_world
    = (Return FINISHED,
       with_report
         (after_calls defaults_world
            [{| inv_base := "text"; inv_oprs := "open";
                inv_args := ["INVOKE_DEFAULT"];
                inv_kwargs :=
                  [("filepath", VStr "/home/u/models/a.py");
                   ("directory", VStr "/home/u/models");
                   ("files", VFiles [[("name", "a.py")]; [("name", "b.numpy")]])] |}])
         (missing_warning ["numpy"])).
Proof. split_and!; reflexivity. Qed.


(** * Further properties of the import operator *)

Section import_runs.
Context (h : Host).


Lemma prepare_call_outcome self prefs ext :
  ext ∈ (extension <$> prefs) →
  matching_files self ext ≠ [] →
  (∃ inv, prepare_call h self prefs ext = Return inv)
  ∨ (prepare_call h self prefs ext = Raise ValueError
     ∧ ∃ fa, fa ∈ prefs ∧ extension fa = ext
             ∧ length (PyStr.split PyStr.dot (operator fa)) ≠ 2%nat).
Proof.
  intros [oper Hoper]%find_operator_Some Hfiles.
  unfold prepare_call. rewrite Hoper.
  destruct (matching_files self ext) as [|f0 rest]; [done|].
  destruct (build_kwargs_returns h self oper f0 rest) as [kwargs ->].
  apply find_operator_elem_of in Hoper as (fa & Hfa & Hext & <-).
  unfold mbind, Outcome_bind.
  destruct (PyStr.split PyStr.dot (operator fa)) as [|a [|b [|c l]]] eqn:E;
    try (right; split; [done|]; exists fa; rewrite E; simpl; split_and!; [done..|lia]).
  left. by eexists.
Qed.

Lemma for_each_outcome self curr order acc w :
  curr = extension <$> file_extensions w →
  (∀ ext, ext ∈ order → matching_files self ext ≠ []) →
  let run := for_each order acc (execute_step h self curr) w in
  (∃ m, run.1 = Return m)
  ∨ (run.1 = Raise ValueError
     ∧ ∃ fa, fa ∈ file_extensions w ∧ extension fa ∈ order
             ∧ length (PyStr.split PyStr.dot (operator fa)) ≠ 2%nat)
  ∨ (∃ inv, run.1 = Raise (OperatorError inv)
            ∧ last (invocations run.2) = Some inv).
Proof.
  intros Hcurr. revert acc w Hcurr.
  induction order as [|ext order IH]; intros acc w Hcurr Hfiles; cbv zeta.
  { left. by eexists. }
  assert (∀ ext', ext' ∈ order → matching_files self ext' ≠ []) as Hfiles'.
  { intros ext' Hin. apply Hfiles. by right. }
  rewrite for_each_cons, execute_step_unfold. case_bool_decide as Hext.
  - destruct (prepare_call_outcome self (file_extensions w) ext) as [[inv ->]|[-> Hfa]].
    + by rewrite <- Hcurr.
    + apply Hfiles. by left.
    + destruct (call_raises _ _ _).
      * right; right. exists inv. split; [done|]. simpl. apply last_snoc.
      * destruct (IH acc (after_calls w [inv]) Hcurr Hfiles') as [?|[[? Hfa]|?]]; auto.
        right; left. split; [done|].
        destruct Hfa as (fa & ? & ? & ?). exists fa. split_and!; [done| |done]. by right.
    + right; left. split; [done|].
      destruct Hfa as (fa & ? & <- & ?). exists fa. split_and!; [done| |done]. by left.
  - destruct (IH (acc ++ [ext]) w Hcurr Hfiles') as [?|[[? Hfa]|?]]; auto.
    right; left. split; [done|].
    destruct Hfa as (fa & ? & ? & ?). exists fa. split_and!; [done| |done]. by right.
Qed.

End import_runs.



(** With operators that have no effect on the addon, [execute] on a
    non-empty selection ends in one of three ways. *)
Lemma execute_three_outcomes (h : Host) (order : list string) (self : ImportOp)
    (w : World) :
  files self ≠ [] →
  set_iteration (selected_extensions self) order →
  let run := execute h order self w in
  run.1 = Return FINISHED
  ∨ (run.1 = Raise ValueError
     ∧ ∃ fa, fa ∈ file_extensions (world_at_import w)
             ∧ extension fa ∈ order
             ∧ length (PyStr.split PyStr.dot (operator fa)) ≠ 2%nat)
  ∨ (∃ inv, run.1 = Raise (OperatorError inv)
            ∧ last (invocations run.2) = Some inv).
Proof.
  intros Hne Horder run. unfold run. rewrite execute_unfold by done.
  destruct (for_each_outcome h (self_at_import self)
              (extension <$> file_extensions (world_at_import w)) order []
              (world_at_import w) eq_refl) as [[m Hm]|[[Hv Hfa]|(inv & Hi & Hlast)]].
  - intros ext (name & Hname & <-)%(order_elem_of order self ext Horder).
    intros E. apply matching_files_ext in Hname.
    rewrite matching_files_self_at_import in E. rewrite E in Hname.
    by apply elem_of_nil in Hname.
  - left. destruct (for_each _ _ _ _) as [[m'|e] w']; simpl in *; [done|congruence].
  - right; left. destruct (for_each _ _ _ _) as [[m'|e] w']; simpl in *; [congruence|].
    by injection Hv as ->.
  - right; right. exists inv.
    destruct (for_each _ _ _ _) as [[m'|e] w']; simpl in *; [congruence|].
    by injection Hi as ->.
Qed.


(** X4: the call [import_single] prepares passes only keyword arguments the
    operator exposes, each at most once, and no keyword other than
    [filepath], [directory] and [files]. *)
Theorem prepare_call_keywords_exposed (h : Host) (self : ImportOp)
    (prefs : list FileAssociation) (ext oper : string) (inv : Invocation) :
  find_operator prefs ext = Some oper →
  prepare_call h self prefs ext = Return inv →
  NoDup (inv_kwargs inv).*1
  ∧ ∀ key value, (key, value) ∈ inv_kwargs inv →
      key ∈ ["filepath"; "directory"; "files"] ∧ has_prop h oper key = true.
Proof.
  intros Hoper. unfold prepare_call. rewrite Hoper.
  unfold mbind, Outcome_bind.
  destruct (build_kwargs _ _ _ _) as [kwargs|] eqn:Hkw; [|done].
  destruct (PyStr.split _ _) as [|? [|? [|? ?]]]; try done.
  intros [= <-]. simpl. unfold build_kwargs in Hkw.
  destruct (has_prop h oper "filepath") eqn:Hfp,
           (has_prop h oper "directory") eqn:Hdir,
           (has_prop h oper "files") eqn:Hfiles; simpl in Hkw;
    try (destruct (first_file _); [|done]); injection Hkw as <-;
    (split; [apply (bool_decide_unpack _); by vm_compute|]);
    intros key value Hin;
    repeat (apply elem_of_cons in Hin as [[= -> ->]|Hin];
            [split; [apply (bool_decide_unpack _); by vm_compute|done]|]);
    by apply elem_of_nil in Hin.
Qed.

Lemma prepare_call_keywords_exposed_witness :
  let inv :=
    {| inv_base := "import_scene"; inv_oprs := "fbx"; inv_args := ["INVOKE_DEFAULT"];
       inv_kwargs := [("filepath", VStr "a.fbx");
                      ("directory", VStr "/home/u/models")] |} in
  prepare_call example_host (self_at_import (example_selection ["a.fbx"]))
    sorted_defaults "fbx" = Return inv
  ∧ NoDup (inv_kwargs inv).*1
  ∧ has_prop example_host "import_scene.fbx" "directory" = true.
Proof.
  intros inv. split; [reflexivity|].
  destruct (prepare_call_keywords_exposed example_host
              (self_at_import (example_selection ["a.fbx"])) sorted_defaults
              "fbx" "import_scene.fbx" inv eq_refl eq_refl) as [Hnd Hkeys].
  split; [exact Hnd|].
  apply (Hkeys "directory" (VStr "/home/u/models")).
  apply (bool_decide_unpack _). by vm_compute.
Defined.

Lemma Forall2_omap_returned {A B} (f : A → Outcome B) l k :
  Forall2 (λ x y, f x = Return y) l k → omap (λ x, returned (f x)) l = k.
Proof.
  induction 1 as [|x y l k Hxy _ IH]; [done|].
  simpl. rewrite Hxy. simpl. f_equal. exact IH.
Qed.

Lemma invocations_after_run {P} (d : Decision P) w invs r :
  invocations (if d then after_calls (world_at_import w) invs
               else with_report (after_calls (world_at_import w) invs) r)
  = invocations w ++ invs.
Proof. destruct d; simpl; by rewrite world_at_import_invocations. Qed.

(** With operators that have no effect on the addon, two runs that no
    exception ends make the same calls, up to order. *)
Lemma execute_same_calls (h : Host) (order1 order2 : list string)
    (self : ImportOp) (w : World) :
  files self ≠ [] →
  set_iteration (selected_extensions self) order1 →
  set_iteration (selected_extensions self) order2 →
  (∀ e, (execute h order1 self w).1 ≠ Raise e) →
  (∀ e, (execute h order2 self w).1 ≠ Raise e) →
  let curr_exts := extension <$> file_extensions (world_at_import w) in
  ∃ invs1 invs2,
    invocations (execute h order1 self w).2 = invocations w ++ invs1
    ∧ invocations (execute h order2 self w).2 = invocations w ++ invs2
    ∧ invs1 ≡ₚ invs2
    ∧ filter (λ e, e ∉ curr_exts) order1 ≡ₚ filter (λ e, e ∉ curr_exts) order2
    ∧ length (reports (execute h order1 self w).2)
      = length (reports (execute h order2 self w).2).
Proof.
  intros Hne Ho1 Ho2 Hret1 Hret2 curr_exts.
  destruct (execute_returns h order1 self w Hne Hret1) as (invs1 & Hexec1 & Hall1).
  destruct (execute_returns h order2 self w Hne Hret2) as (invs2 & Hexec2 & Hall2).
  fold curr_exts in Hexec1, Hexec2, Hall1, Hall2.
  assert (order1 ≡ₚ order2) as Hperm.
  { unfold set_iteration in Ho1, Ho2. by rewrite Ho1, Ho2. }
  assert (filter (λ e, e ∉ curr_exts) order1 ≡ₚ filter (λ e, e ∉ curr_exts) order2)
    as Hmiss by by rewrite Hperm.
  exists invs1, invs2. rewrite Hexec1, Hexec2. split_and!.
  - apply invocations_after_run.
  - apply invocations_after_run.
  - rewrite <- (Forall2_omap_returned _ _ _ Hall1), <- (Forall2_omap_returned _ _ _ Hall2).
    by rewrite Hperm.
  - done.
  - destruct (decide (filter (λ e, e ∉ curr_exts) order1 = [])) as [E1|E1],
             (decide (filter (λ e, e ∉ curr_exts) order2 = [])) as [E2|E2];
      simpl; rewrite ?length_app; simpl; try done.
    + rewrite E1 in Hmiss. symmetry in Hmiss. by apply Permutation_nil_r in Hmiss.
    + rewrite E2 in Hmiss. by apply Permutation_nil_r in Hmiss.
Qed.

(** * Runs of the import operator with operators that change the addon *)

Section effect_facts.
Context (h : Host) (eff : Effect).

Lemma eff_execute_step_unfold self curr ext acc w :
  Effectful.execute_step h eff self curr ext acc w =
    if bool_decide (ext ∈ curr) then
      match prepare_call h self (file_extensions w) ext with
      | Return inv =>
          (if call_raises h (invocations w) inv then Raise (OperatorError inv)
           else Return acc,
           after_call eff inv w)
      | Raise e => (Raise e, w)
      end
    else (Return (acc ++ [ext]), w).
Proof.
  unfold Effectful.execute_step. case_bool_decide; [|done].
  unfold Effectful.import_single, Effectful.call. run_m.
  destruct (prepare_call _ _ _ _); [|done]. simpl.
  by destruct (call_raises _ _ _).
Qed.

Lemma eff_execute_unfold order self w :
  files self ≠ [] →
  Effectful.execute h eff order self w =
    match for_each order []
            (Effectful.execute_step h eff (self_at_import self)
               (extension <$> file_extensions (world_at_import w)))
            (world_at_import w) with
    | (Return ext_missing, w') =>
        (Return FINISHED,
         if decide (ext_missing = []) then w'
         else with_report w' (missing_warning ext_missing))
    | (Raise e, w') => (Raise e, w')
    end.
Proof.
  intros Hne. unfold Effectful.execute.
  unfold mbind at 1, M_bind at 1, get_prefs at 1. simpl.
  unfold mbind at 1, M_bind at 1. rewrite world_at_import_unfold.
  unfold mbind at 1, M_bind at 1, get_prefs at 1. simpl.
  destruct (files self) as [|f fs] eqn:Hfiles; [done|].
  unfold mbind at 1, M_bind at 1. simpl.
  unfold mbind at 1, M_bind at 1. unfold self_at_import. rewrite Hfiles.
  destruct (for_each _ _ _ _) as [[ext_missing|e] w']; [|done].
  case_decide; done.
Qed.

Lemma eff_execute_empty_selection order self w :
  files self = [] →
  Effectful.execute h eff order self w = (Raise IndexError, world_at_import w).
Proof.
  intros Hnil. unfold Effectful.execute.
  unfold mbind at 1, M_bind at 1, get_prefs at 1. simpl.
  unfold mbind at 1, M_bind at 1. rewrite world_at_import_unfold.
  unfold mbind at 1, M_bind at 1, get_prefs at 1. simpl.
  rewrite Hnil. done.
Qed.

Lemma prepare_call_args self prefs ext inv :
  prepare_call h self prefs ext = Return inv → inv_args inv = ["INVOKE_DEFAULT"].
Proof.
  unfold prepare_call. destruct (find_operator _ _); [|done].
  unfold mbind, Outcome_bind. destruct (build_kwargs _ _ _ _); [|done].
  destruct (PyStr.split _ _) as [|? [|? [|? ?]]]; try done.
  by intros [= <-].
Qed.

(** With a matching file, preparing the call fails only for want of an
    association or of a well-formed operator name. *)
Lemma prepare_call_raises self prefs ext e :
  matching_files self ext ≠ [] →
  prepare_call h self prefs ext = Raise e → e = ValueError ∨ e = TypeError.
Proof.
  intros Hfiles. unfold prepare_call.
  destruct (find_operator _ _) as [oper|]; [|intros [= <-]; by right].
  destruct (matching_files self ext) as [|f0 rest]; [done|].
  destruct (build_kwargs_returns h self oper f0 rest) as [kwargs ->].
  unfold mbind, Outcome_bind.
  destruct (PyStr.split _ _) as [|? [|? [|? ?]]]; try done; intros [= <-]; by left.
Qed.

(** The loop of [execute], whatever the called operators do. *)
Lemma eff_for_each_run self curr order acc w :
  let run := for_each order acc (Effectful.execute_step h eff self curr) w in
  ∃ invs,
    invocations run.2 = invocations w ++ invs
    ∧ (length invs ≤ length order)%nat
    ∧ Forall (λ inv, inv_args inv = ["INVOKE_DEFAULT"]) invs
    ∧ ((∀ ext, ext ∈ order → matching_files self ext ≠ []) →
       (∃ m, run.1 = Return m)
       ∨ run.1 = Raise ValueError
       ∨ run.1 = Raise TypeError
       ∨ ∃ inv, run.1 = Raise (OperatorError inv)
                ∧ last (invocations run.2) = Some inv).
Proof.
  revert acc w. induction order as [|ext order IH]; intros acc w; cbv zeta.
  { exists []. rewrite app_nil_r. split_and!; [done|done|constructor|].
    intros _. left. by eexists. }
  assert (ext ∈ ext :: order) as Hhere by by left.
  rewrite for_each_cons, eff_execute_step_unfold. case_bool_decide as Hext.
  - destruct (prepare_call _ _ _ _) as [inv|e] eqn:Hprep.
    + destruct (call_raises _ _ _).
      * exists [inv]. simpl. split_and!; [done|lia| |].
        -- constructor; [by eapply prepare_call_args|constructor].
        -- intros _. right; right; right. exists inv. split; [done|]. apply last_snoc.
      * destruct (IH acc (after_call eff inv w)) as (invs & Hinvs & Hlen & Hargs & Hout).
        exists (inv :: invs). split_and!.
        -- rewrite Hinvs. simpl. by rewrite <- app_assoc.
        -- simpl. lia.
        -- constructor; [by eapply prepare_call_args|done].
        -- intros Hfiles. apply Hout. intros ? ?. apply Hfiles. by right.
    + exists []. rewrite app_nil_r. split_and!; [done|simpl; lia|constructor|].
      intros Hfiles.
      destruct (prepare_call_raises _ _ _ _ (Hfiles ext Hhere) Hprep) as [-> | ->]; auto.
  - destruct (IH (acc ++ [ext]) w) as (invs & Hinvs & Hlen & Hargs & Hout).
    exists invs. split_and!; [done|simpl; lia|done|].
    intros Hfiles. apply Hout. intros ? ?. apply Hfiles. by right.
Qed.

(** When the called operators leave the associations as they are, the loop
    goes as with operators without effect. *)
Lemma eff_for_each_agree self curr order acc w1 w2 :
  leaves_associations eff →
  same_import_state w1 w2 →
  let run1 := for_each order acc (Effectful.execute_step h eff self curr) w1 in
  let run2 := for_each order acc (execute_step h self curr) w2 in
  run1.1 = run2.1 ∧ same_import_state run1.2 run2.2.
Proof.
  intros Heff. revert acc w1 w2.
  induction order as [|ext order IH]; intros acc w1 w2 [Hp Hi]; cbv zeta; [done|].
  rewrite !for_each_cons, eff_execute_step_unfold, execute_step_unfold.
  rewrite Hp, Hi. case_bool_decide.
  - destruct (prepare_call _ _ _ _) as [inv|e]; [|done].
    assert (same_import_state (after_call eff inv w1) (after_calls w2 [inv])) as Hsame.
    { split; simpl; [by rewrite Heff|by rewrite Hi]. }
    destruct (call_raises _ _ _); [done|]. by apply IH.
  - by apply IH.
Qed.

Lemma eff_execute_agree order self w :
  leaves_associations eff →
  (Effectful.execute h eff order self w).1 = (execute h order self w).1
  ∧ same_import_state (Effectful.execute h eff order self w).2
      (execute h order self w).2.
Proof.
  intros Heff. destruct (decide (files self = [])) as [Hnil|Hne].
  - by rewrite eff_execute_empty_selection, execute_empty_selection.
  - rewrite eff_execute_unfold, execute_unfold by done.
    destruct (eff_for_each_agree (self_at_import self)
                (extension <$> file_extensions (world_at_import w)) order []
                (world_at_import w) (world_at_import w) Heff) as [H1 H2]; [done|].
    destruct (for_each _ _ (Effectful.execute_step _ _ _ _) _) as [[m1|e1] w1'],
             (for_each _ _ (execute_step _ _ _) _) as [[m2|e2] w2'];
      simpl in *; try done.
    + injection H1 as ->. split; [done|]. by case_decide.
    + injection H1 as ->. by split.
Qed.

End effect_facts.

(** [execute] is the import operator with operators that have no effect
    on the addon. *)
Lemma execute_no_effect h order self w :
  Effectful.execute h no_effect order self w = execute h order self w.
Proof. reflexivity. Qed.

(** With [foo] associated with [import_any.reset_extensions] the order of
    iteration decides which operator receives [b.stl]: the one of the
    defaults when [foo] comes first, the one the user has chosen
    otherwise. *)
Example execute_order_matters :
  let self := example_selection ["a.foo"; "b.stl"] in
  let reset :=
    {| inv_base := "import_any"; inv_oprs := "reset_extensions";
       inv_args := ["INVOKE_DEFAULT"]; inv_kwargs := [] |} in
  let run1 := Effectful.execute addon_host reset_effect ["foo"; "stl"] self
                resetting_world in
  let run2 := Effectful.execute addon_host reset_effect ["stl"; "foo"] self
                resetting_world in
  run1.1 = Return FINISHED
  ∧ invocations run1.2
    = [ reset;
        {| inv_base := "import_mesh"; inv_oprs := "stl";
           inv_args := ["INVOKE_DEFAULT"];
           inv_kwargs := [("filepath", VStr "/home/u/models/b.stl");
                          ("directory", VStr "/home/u/models");
                          ("files", VFiles [[("name", "b.stl")]])] |} ]
  ∧ run2.1 = Return FINISHED
  ∧ invocations run2.2
    = [ {| inv_base := "import_scene"; inv_oprs := "obj";
           inv_args := ["INVOKE_DEFAULT"];
           inv_kwargs := [("filepath", VStr "/home/u/models/b.stl")] |};
        reset ]
  ∧ file_extensions run1.2 = sorted_defaults
  ∧ file_extensions run2.2 = sorted_defaults.
Proof. split_and!; reflexivity. Qed.

(** X2: on a non-empty selection [execute] ends in one of four ways only:
    it returns FINISHED; or it raises [ValueError]; or it raises
    [TypeError]; or it raises what a called operator raised, and that call
    is the last one made.  When the called operators leave the associations
    as they are, it does not raise [TypeError], and it raises [ValueError]
    only if some association of a selected extension names its operator with
    no dot or with more than one: [import_single] then never fails for want of
    an operator or of a matching file.  (An operator that changes the
    associations, as [import_any.reset_extensions] does, can take away the
    association of an extension that the loop still has on its list, and
    [import_single] then raises [TypeError].) *)
Theorem execute_outcomes (h : Host) (eff : Effect) (order : list string)
    (self : ImportOp) (w : World) :
  files self ≠ [] →
  set_iteration (selected_extensions self) order →
  let run := Effectful.execute h eff order self w in
  (run.1 = Return FINISHED
   ∨ run.1 = Raise ValueError
   ∨ run.1 = Raise TypeError
   ∨ ∃ inv, run.1 = Raise (OperatorError inv)
            ∧ last (invocations run.2) = Some inv)
  ∧ (leaves_associations eff →
     run.1 ≠ Raise TypeError
     ∧ (run.1 = Raise ValueError →
        ∃ fa, fa ∈ file_extensions (world_at_import w)
              ∧ extension fa ∈ order
              ∧ length (PyStr.split PyStr.dot (operator fa)) ≠ 2%nat)).
Proof.
  intros Hne Horder run. split.
  - unfold run. rewrite eff_execute_unfold by done.
    destruct (eff_for_each_run h eff (self_at_import self)
                (extension <$> file_extensions (world_at_import w)) order []
                (world_at_import w)) as (invs & _ & _ & _ & Hout).
    destruct Hout as [[m Hm]|[Hv|[Ht|(inv & Hi & Hlast)]]].
    + intros ext (name & Hname & <-)%(order_elem_of order self ext Horder).
      intros E. apply matching_files_ext in Hname.
      rewrite matching_files_self_at_import in E. rewrite E in Hname.
      by apply elem_of_nil in Hname.
    + left. destruct (for_each _ _ _ _) as [[m'|e] w']; simpl in *; [done|congruence].
    + right; left.
      destruct (for_each _ _ _ _) as [[m'|e] w']; simpl in *; [congruence|].
      by injection Hv as ->.
    + right; right; left.
      destruct (for_each _ _ _ _) as [[m'|e] w']; simpl in *; [congruence|].
      by injection Ht as ->.
    + right; right; right. exists inv.
      destruct (for_each _ _ _ _) as [[m'|e] w']; simpl in *; [congruence|].
      by injection Hi as ->.
  - intros Heff.
    destruct (eff_execute_agree h eff order self w Heff) as [Hsame _].
    fold run in Hsame. rewrite Hsame.
    destruct (execute_three_outcomes h order self w Hne Horder)
      as [Hret|[[Hv Hfa]|(inv & Hraise & _)]].
    + rewrite Hret. split; [done|]. discriminate.
    + rewrite Hv. split; [done|]. by intros _.
    + rewrite Hraise. split; [done|]. discriminate.
Qed.

Lemma execute_outcomes_witness :
  (Effectful.execute addon_host reset_effect ["foo"; "blend"]
     (example_selection ["a.foo"; "b.blend"]) resetting_world).1
  = Raise TypeError
  ∧ (Effectful.execute addon_host cache_effect ["foo"; "blend"]
       (example_selection ["a.foo"; "b.blend"]) resetting_world).1
    ≠ Raise TypeError.
Proof.
  split.
  - destruct (execute_outcomes addon_host reset_effect ["foo"; "blend"]
                (example_selection ["a.foo"; "b.blend"]) resetting_world)
      as [[H|[H|[H|(inv & H & _)]]] _].
    + discriminate.
    + apply (bool_decide_unpack _). by vm_compute.
    + vm_compute in H. discriminate.
    + vm_compute in H. discriminate.
    + exact H.
    + vm_compute in H. discriminate.
  - destruct (execute_outcomes addon_host cache_effect ["foo"; "blend"]
                (example_selection ["a.foo"; "b.blend"]) resetting_world)
      as [_ H].
    + discriminate.
    + apply (bool_decide_unpack _). by vm_compute.
    + apply H. intros inv w. reflexivity.
Defined.



(** X5: when the called operators leave the associations as they are, the
    order in which Python iterates over the set of extensions does not
    change which calls a run makes, as long as no exception ends it: two
    runs on the same selection and state both return FINISHED and make the
    same operator calls, up to order.  (With an operator that changes the
    associations the order matters: see [execute_order_matters].) *)
Theorem execute_order_irrelevant (h : Host) (eff : Effect)
    (order1 order2 : list string) (self : ImportOp) (w : World) :
  leaves_associations eff →
  files self ≠ [] →
  set_iteration (selected_extensions self) order1 →
  set_iteration (selected_extensions self) order2 →
  (∀ e, (Effectful.execute h eff order1 self w).1 ≠ Raise e) →
  (∀ e, (Effectful.execute h eff order2 self w).1 ≠ Raise e) →
  ∃ invs1 invs2,
    (Effectful.execute h eff order1 self w).1 = Return FINISHED
    ∧ (Effectful.execute h eff order2 self w).1 = Return FINISHED
    ∧ invocations (Effectful.execute h eff order1 self w).2 = invocations w ++ invs1
    ∧ invocations (Effectful.execute h eff order2 self w).2 = invocations w ++ invs2
    ∧ invs1 ≡ₚ invs2.
Proof.
  intros Heff Hne Ho1 Ho2 Hret1 Hret2.
  destruct (eff_execute_agree h eff order1 self w Heff) as [Hout1 [_ Hinv1]].
  destruct (eff_execute_agree h eff order2 self w Heff) as [Hout2 [_ Hinv2]].
  rewrite Hout1 in Hret1. rewrite Hout2 in Hret2.
  destruct (execute_same_calls h order1 order2 self w Hne Ho1 Ho2 Hret1 Hret2)
    as (invs1 & invs2 & H1 & H2 & Hperm & _).
  destruct (execute_returns h order1 self w Hne Hret1) as (? & Hexec1 & _).
  destruct (execute_returns h order2 self w Hne Hret2) as (? & Hexec2 & _).
  exists invs1, invs2. split_and!.
  - by rewrite Hout1, Hexec1.
  - by rewrite Hout2, Hexec2.
  - by rewrite Hinv1.
  - by rewrite Hinv2.
  - done.
Qed.

Lemma execute_order_irrelevant_witness :
  let self := example_selection ["a.stl"; "b.fbx"; "c.zzz"] in
  ∃ invs1 invs2,
    invocations
      (Effectful.execute example_host cache_effect ["stl"; "fbx"; "zzz"] self
         empty_world).2
      = invocations empty_world ++ invs1
    ∧ invocations
        (Effectful.execute example_host cache_effect ["zzz"; "fbx"; "stl"] self
           empty_world).2
      = invocations empty_world ++ invs2
    ∧ invs1 ≡ₚ invs2.
Proof.
  intros self.
  destruct (execute_order_irrelevant example_host cache_effect
              ["stl"; "fbx"; "zzz"] ["zzz"; "fbx"; "stl"] self empty_world)
    as (invs1 & invs2 & _ & _ & H1 & H2 & Hperm).
  - intros inv w. reflexivity.
  - discriminate.
  - apply (bool_decide_unpack _). by vm_compute.
  - apply (bool_decide_unpack _). by vm_compute.
  - intros e. vm_compute. discriminate.
  - intros e. vm_compute. discriminate.
  - exists invs1, invs2. split; [exact H1|]. split; [exact H2|exact Hperm].
Defined.

Lemma store_ok_world_at_import w :
  store_ok (file_extensions w) → store_ok (file_extensions (world_at_import w)).
Proof.
  intros Hok. unfold world_at_import. case_decide; [apply store_ok_defaults|done].
Qed.

(** X6: in every state reached through the operators of the addon no
    stored extension contains a dot or one of the letters A to Z; hence the
    extension of a selected file that has one of these letters (as in
    [MODEL.OBJ]) is not associated when [execute] looks it up: the
    comparison is case-sensitive and nothing lower-cases the extension of a
    file. *)
Theorem reachable_extensions_lowercase (w : World) :
  reachable w →
  Forall (λ ext, Forall (λ n, n ≠ 46 ∧ ¬ (65 ≤ n ≤ 90))%nat (codes ext))
    (extension <$> file_extensions w)
  ∧ ∀ name, Exists (λ n, 65 ≤ n ≤ 90)%nat (codes (OsPath.ext_of name)) →
      OsPath.ext_of name ∉ extension <$> file_extensions (world_at_import w).
Proof.
  intros Hreach%reachable_store_ok.
  assert (∀ prefs ext, store_ok prefs → ext ∈ (extension <$> prefs) →
            no_dot_no_capital ext) as Hnorm.
  { intros prefs ext [_ Hn] Hin. rewrite Forall_forall in Hn.
    rewrite <- (Hn ext Hin). apply normalize_no_dot_no_capital. }
  split.
  - apply Forall_forall. intros ext Hin. by eapply Hnorm.
  - intros name Hup Hin.
    pose proof (Hnorm _ _ (store_ok_world_at_import w Hreach) Hin) as Hlow.
    apply Exists_exists in Hup as (n & Hn & Hcap).
    unfold no_dot_no_capital in Hlow. rewrite Forall_forall in Hlow.
    by destruct (Hlow n Hn).
Qed.

Lemma reachable_extensions_lowercase_witness :
  OsPath.ext_of "MODEL.OBJ" = "OBJ"
  ∧ "OBJ" ∉ extension <$> file_extensions (world_at_import empty_world).
Proof.
  split; [reflexivity|].
  destruct (reachable_extensions_lowercase empty_world) as [_ H].
  - by apply reachable_initial.
  - apply (H "MODEL.OBJ"). apply (bool_decide_unpack _). by vm_compute.
Defined.


(** * Further properties of the preference operators *)

Lemma list_find_extension_None ext (prefs : list FileAssociation) :
  ext ∉ (extension <$> prefs) → list_find (λ fa, extension fa = ext) prefs = None.
Proof.
  intros Hnot. apply list_find_None, Forall_forall. intros fa Hfa E.
  apply Hnot. rewrite <- E. by apply list_elem_of_fmap_2.
Qed.

(** X7: [remove_extension] undoes [add_extension] when it is given the
    normalized extension: the collection is the one before the addition.
    Given the extension as the user typed it, with a dot or an upper-case
    letter, it finds nothing (if that spelling is not stored), reports an
    error and leaves the added entry in place: [remove_extension] does not
    normalize its input. *)
Theorem add_then_remove_extension (ext : string) (w : World) :
  normalize ext ∉ (extension <$> file_extensions w) →
  (add_extension ext ;; remove_extension (normalize ext)) w
    = (Return FINISHED, after_pref_op w (file_extensions w) [])
  ∧ (normalize ext ≠ ext → ext ∉ (extension <$> file_extensions w) →
     (add_extension ext ;; remove_extension ext) w
       = (Return CANCELLED,
          after_pref_op w
            (file_extensions w ++ [{| extension := normalize ext; operator := "" |}])
            [{| report_type := ERROR;
                report_msg := "Extension " +:+ ext +:+ " missing, cannot remove" |}])).
Proof.
  intros Hnew. split.
  - unfold mbind at 1, M_bind at 1. rewrite add_extension_unfold.
    rewrite bool_decide_eq_false_2 by done.
    run_m. rewrite list_find_app_r by by apply list_find_extension_None.
    simpl. rewrite decide_True by done. simpl.
    unfold after_pref_op. rewrite app_nil_r. do 2 f_equal.
    replace (0 + length (file_extensions w))%nat with (length (file_extensions w)) by lia.
    rewrite delete_middle. apply app_nil_r.
  - intros Hne Hraw.
    unfold mbind at 1, M_bind at 1. rewrite add_extension_unfold.
    rewrite bool_decide_eq_false_2 by done.
    run_m. rewrite list_find_app_r by by apply list_find_extension_None.
    simpl. rewrite decide_False by done. done.
Qed.

Lemma add_then_remove_extension_witness :
  (add_extension ".Blend" ;; remove_extension "blend") defaults_world
    = (Return FINISHED, defaults_world)
  ∧ (add_extension ".Blend" ;; remove_extension ".Blend") defaults_world
    = (Return CANCELLED,
       after_pref_op defaults_world
         (sorted_defaults ++ [{| extension := "blend"; operator := "" |}])
         [{| report_type := ERROR;
             report_msg := "Extension .Blend missing, cannot remove" |}]).
Proof.
  destruct (add_then_remove_extension ".Blend" defaults_world) as [H1 H2].
  - apply (bool_decide_unpack _). by vm_compute.
  - split.
    + exact H1.
    + apply H2.
      * discriminate.
      * apply (bool_decide_unpack _). by vm_compute.
Defined.

Section dict_facts.

Lemma dict_get_is_Some d k : is_Some (dict_get d k) ↔ k ∈ d.*1.
Proof.
  induction d as [|[k' v] d IH]; simpl.
  - split; [by intros [? ?]|by intros ?%elem_of_nil].
  - case_decide as Hk; [subst; split; [left|by eexists]|].
    rewrite IH, elem_of_cons. split; [by right|]. by intros [?|?].
Qed.

(** Looking an extension up in a collection built from a dictionary, one
    entry per listed key, gives the dictionary's value for a listed key. *)
Lemma find_operator_built d keys ext :
  (∀ k, k ∈ keys → is_Some (dict_get d k)) →
  find_operator ((λ k, {| extension := k; operator := default "" (dict_get d k) |}) <$> keys) ext
  = if decide (ext ∈ keys) then dict_get d ext else None.
Proof.
  induction keys as [|k keys IH]; intros Hkeys.
  - by destruct (decide (ext ∈ [])) as [?%elem_of_nil|].
  - rewrite fmap_cons. cbn [find_operator extension operator].
    destruct (decide (k = ext)) as [Hk|Hk].
    + subst k. rewrite decide_True by by left.
      destruct (Hkeys ext) as [v ->]; [by left|done].
    + rewrite IH by (intros k' Hk'; apply Hkeys; by right).
      destruct (decide (ext ∈ keys)) as [Hin|Hnin].
      * rewrite decide_True by by right. done.
      * rewrite decide_False; [done|]. by intros [?|?]%elem_of_cons.
Qed.

End dict_facts.

(** X8: after [reset_extensions], whatever the collection was, the lookup
    of [import_single] gives for every extension the operator the [defaults]
    dictionary holds for it, and none for an extension that is not a key of
    the dictionary; every operator it gives splits at the dot in exactly two
    parts, so that [import_single] can call it. *)
Theorem reset_extensions_lookup (w : World) (ext : string) :
  find_operator (file_extensions (reset_extensions w).2) ext = dict_get defaults ext
  ∧ ∀ oper, dict_get defaults ext = Some oper →
      length (PyStr.split PyStr.dot oper) = 2%nat.
Proof.
  split.
  - rewrite reset_extensions_unfold. cbn [snd]. rewrite after_pref_op_prefs.
    change sorted_defaults with
      ((λ k, {| extension := k; operator := default "" (dict_get defaults k) |})
         <$> PyStr.sorted defaults.*1).
    rewrite find_operator_built.
    + case_decide as Hin; [done|]. symmetry. apply eq_None_not_Some.
      rewrite dict_get_is_Some. intros Hk. apply Hin. by rewrite sorted_perm.
    + intros k Hk. apply dict_get_is_Some. by rewrite sorted_perm in Hk.
  - assert (Forall (λ kv, length (PyStr.split PyStr.dot kv.2) = 2%nat) defaults) as Hall
      by by repeat constructor.
    intros oper Hget. revert Hall Hget. generalize defaults.
    induction l as [|[k v] d IH]; simpl; [done|].
    intros [Hv Hd]%Forall_cons. case_decide; [by intros [= <-]|by apply IH].
Qed.


(** * The file filter of the import menu entry *)

Section split_join_facts.
Import PyStr.

Lemma split_app_sep c x rest :
  contains c x = false → split c (x +:+ String c rest) = x :: split c rest.
Proof.
  induction x as [|a x IH]; intros Hx.
  - rewrite app_empty_l. simpl. by rewrite Ascii.eqb_refl.
  - simpl in Hx. apply orb_false_iff in Hx as [Ha Hx].
    rewrite app_cons. simpl. rewrite Ha, IH by done. done.
Qed.

Lemma join_cons_cons sep x y l :
  join sep (x :: y :: l) = x +:+ sep +:+ join sep (y :: l).
Proof. reflexivity. Qed.

(** Splitting what [join] has put together gives the pieces back, when no
    piece contains the separator and there is at least one piece. *)
Lemma split_join c l :
  l ≠ [] → Forall (λ piece, contains c piece = false) l →
  split c (join (String c "") l) = l.
Proof.
  induction l as [|x l IH]; [done|]. intros _ [Hx Hl]%Forall_cons.
  destruct l as [|y l].
  - by apply contains_split.
  - rewrite join_cons_cons, app_cons, app_empty_l, split_app_sep by done.
    by rewrite IH.
Qed.

Lemma contains_cons c a s : contains c (String a s) = Ascii.eqb a c || contains c s.
Proof. reflexivity. Qed.

Lemma contains_star c ext :
  c ≠ "*"%char → contains c ("*" +:+ ext) = contains c ext.
Proof.
  intros Hc. rewrite app_cons, app_empty_l, contains_cons.
  destruct (Ascii.eqb_spec "*"%char c) as [E|]; [by destruct Hc|done].
Qed.

End split_join_facts.

Example get_prefs_extensions_example :
  (get_prefs_extensions
     {| file_extensions := [{| extension := "obj"; operator := "import_scene.obj" |};
                            {| extension := "fbx"; operator := "import_scene.fbx" |}];
        oper_cache := ∅; reports := []; invocations := [] |}).1
  = Return "*obj;*fbx".
Proof. reflexivity. Qed.

(** X9: the filter [get_prefs_extensions] builds for the file browser
    changes nothing in the state and lists, separated by semicolons, one
    pattern per association in the order of the collection, the extension
    behind a star (with no dot in between); cutting the filter at the
    semicolons gives these patterns back when no stored extension contains a
    semicolon.  For an empty collection the filter is the empty string. *)
Theorem get_prefs_extensions_patterns (w : World) :
  Forall (λ fa, PyStr.contains ";" (extension fa) = false) (file_extensions w) →
  ∃ glob,
    get_prefs_extensions w = (Return glob, w)
    ∧ PyStr.split ";" glob
      = (if decide (file_extensions w = []) then [""]
         else (λ fa, "*" +:+ extension fa) <$> file_extensions w)
    ∧ (file_extensions w = [] → glob = "").
Proof.
  intros Hsemi. eexists. split; [reflexivity|]. split.
  - case_decide as Hnil; [by rewrite Hnil|].
    apply split_join.
    + by destruct (file_extensions w).
    + apply Forall_fmap. eapply Forall_impl; [exact Hsemi|].
      intros fa Hfa. unfold compose. by rewrite contains_star.
  - by intros ->.
Qed.

Lemma get_prefs_extensions_patterns_witness :
  ∃ glob,
    get_prefs_extensions defaults_world = (Return glob, defaults_world)
    ∧ PyStr.split ";" glob
      = (λ fa, "*" +:+ extension fa) <$> file_extensions defaults_world.
Proof.
  destruct (get_prefs_extensions_patterns defaults_world) as (glob & Hglob & Hsplit & _).
  - by repeat constructor.
  - exists glob. split; [exact Hglob|]. exact Hsplit.
Defined.

(** * The cache of operator lookups *)

Lemma operator_exists_cached_unfold h ref w :
  operator_exists h ref false w =
    match oper_cache w !! ref with
    | Some cached => (Return cached, w)
    | None =>
        match PyStr.split PyStr.dot ref with
        | [_] => (Return false, w)
        | [base; oprs] =>
            let res := bool_decide (base ∈ ops_dir h ∧ oprs ∈ submod_dir h base) in
            (Return res, with_cache w (<[ref := res]> (oper_cache w)))
        | _ => (Raise ValueError, w)
        end
    end.
Proof.
  unfold operator_exists. run_m.
  destruct (oper_cache w !! ref); [done|].
  destruct (PyStr.contains PyStr.dot ref) eqn:Hdot; simpl.
  - destruct (PyStr.split PyStr.dot ref) as [|a [|b [|c l]]] eqn:E; try done.
    + pose proof (split_one_piece _ _ E) as ->.
      apply contains_split in E. congruence.
    + by rewrite bool_decide_and.
  - apply contains_split in Hdot. by rewrite Hdot.
Qed.

Lemma operator_exists_refresh_unfold h ref w :
  operator_exists h ref true w = operator_exists h ref false (with_cache w ∅).
Proof.
  rewrite operator_exists_cached_unfold. cbn [oper_cache with_cache].
  rewrite lookup_empty. unfold operator_exists. run_m.
  destruct (PyStr.contains PyStr.dot ref) eqn:Hdot; simpl.
  - destruct (PyStr.split PyStr.dot ref) as [|a [|b [|c l]]] eqn:E; try done.
    + pose proof (split_one_piece _ _ E) as ->.
      apply contains_split in E. congruence.
    + by rewrite bool_decide_and.
  - apply contains_split in Hdot. by rewrite Hdot.
Qed.

(** X10: once [operator_exists] has answered for a reference, a later call
    without refresh gives the same answer and leaves the state as it is,
    whatever the host's registry holds by then: an answer that was cached is
    not checked against the registry again (a reference without a dot is not
    cached, and is answered [False] both times). *)
Theorem operator_exists_cached (h h' : Host) (ref : string) (refresh : bool)
    (w w1 : World) (b : bool) :
  operator_exists h ref refresh w = (Return b, w1) →
  operator_exists h' ref false w1 = (Return b, w1).
Proof.
  intros Hfirst.
  assert (operator_exists h ref false (if refresh then with_cache w ∅ else w)
          = (Return b, w1)) as H1.
  { destruct refresh; [by rewrite <- operator_exists_refresh_unfold|done]. }
  clear Hfirst. revert H1. generalize (if refresh then with_cache w ∅ else w).
  intros w0. rewrite !operator_exists_cached_unfold.
  destruct (oper_cache w0 !! ref) as [cached|] eqn:Hc.
  - intros [= <- <-]. by rewrite Hc.
  - destruct (PyStr.split PyStr.dot ref) as [|a [|c [|d l]]] eqn:E; try done.
    + intros [= <- <-]. by rewrite Hc.
    + intros [= <- <-]. cbn [oper_cache with_cache]. by rewrite lookup_insert_eq.
Qed.

Lemma operator_exists_cached_witness :
  let unregistered : Host :=
    {| ops_dir := []; submod_dir := λ _, []; has_prop := λ _ _, false;
       call_raises := λ _ _, true |} in
  let w1 := with_cache empty_world {[ "import_scene.obj" := true ]} in
  operator_exists example_host "import_scene.obj" true empty_world = (Return true, w1)
  ∧ operator_exists unregistered "import_scene.obj" false w1 = (Return true, w1).
Proof.
  intros unregistered w1.
  assert (operator_exists example_host "import_scene.obj" true empty_world
          = (Return true, w1)) as H1 by reflexivity.
  split; [exact H1|].
  exact (operator_exists_cached example_host unregistered "import_scene.obj" true
           empty_world w1 true H1).
Defined.

(** X11: each operator of the preference panel empties the cache of
    operator lookups, so that the next lookup without refresh consults the
    host's registry, as a lookup with refresh does. *)
Theorem pref_op_resets_cache (op : PrefOp) (w : World) (h : Host) (ref : string) :
  oper_cache (run_pref_op op w).2 = ∅
  ∧ operator_exists h ref false (run_pref_op op w).2
    = operator_exists h ref true (run_pref_op op w).2.
Proof.
  assert (oper_cache (run_pref_op op w).2 = ∅) as Hempty.
  { destruct op as [|ext|ext]; unfold run_pref_op.
    - by rewrite reset_extensions_unfold.
    - rewrite add_extension_unfold. by case_bool_decide.
    - run_m. by destruct (list_find _ _) as [[i fa]|]. }
  split; [done|].
  rewrite operator_exists_refresh_unfold.
  destruct (run_pref_op op w).2 as [prefs cache reps invs]. simpl in Hempty.
  by rewrite Hempty.
Qed.


(** * The labels of the preference panel *)

Lemma with_cache_same w : with_cache w (oper_cache w) = w.
Proof. by destruct w. Qed.

Lemma with_cache_twice w c1 c2 : with_cache (with_cache w c1) c2 = with_cache w c2.
Proof. done. Qed.

Lemma draw_operator_label_unfold h oper w :
  draw_operator_label h oper w =
    match PyStr.split PyStr.dot oper with
    | [_] => (Return (if decide (oper = "") then AddOperator else ShouldContainDot), w)
    | [base; oprs] =>
        match oper_cache w !! oper with
        | Some found => (Return (found_label found), w)
        | None =>
            let res := bool_decide (base ∈ ops_dir h ∧ oprs ∈ submod_dir h base) in
            (Return (found_label res), with_cache w (<[oper := res]> (oper_cache w)))
        end
    | _ => (Return OnlyOneDot, w)
    end.
Proof.
  unfold draw_operator_label.
  destruct (decide (oper = "")) as [->|Hne]; [done|].
  assert (PyStr.truthy oper = true) as ->.
  { unfold PyStr.truthy. apply negb_true_iff. by apply String.eqb_neq. }
  simpl.
  destruct (PyStr.contains PyStr.dot oper) eqn:Hdot; simpl.
  - destruct (PyStr.split PyStr.dot oper) as [|a [|b [|c l]]] eqn:E; simpl; try done.
    + by apply split_nonempty in E.
    + pose proof (split_one_piece _ _ E) as ->.
      apply contains_split in E. congruence.
    + unfold mbind, M_bind. rewrite operator_exists_cached_unfold, E.
      by destruct (oper_cache w !! oper) as [[]|].
  - apply contains_split in Hdot. by rewrite Hdot.
Qed.

(** X12: drawing the label of an entry never raises and changes nothing
    but the cache of lookups.  The label asks for an operator exactly when
    the field is empty, for a dot exactly when the field is not empty and has
    none, for a single dot exactly when it has more than one; otherwise it
    tells whether the operator was found, from the cache when the cache has
    an answer and from the host's registry when not. *)
Theorem draw_operator_label_spec (h : Host) (oper : string) (w : World) :
  ∃ label cache,
    draw_operator_label h oper w = (Return label, with_cache w cache)
    ∧ (label = AddOperator ↔ oper = "")
    ∧ (label = ShouldContainDot ↔
         oper ≠ "" ∧ PyStr.contains PyStr.dot oper = false)
    ∧ (label = OnlyOneDot ↔ (2 < length (PyStr.split PyStr.dot oper))%nat)
    ∧ (∀ base oprs, PyStr.split PyStr.dot oper = [base; oprs] →
         label = found_label
                   (default (bool_decide (base ∈ ops_dir h ∧ oprs ∈ submod_dir h base))
                      (oper_cache w !! oper))).
Proof.
  rewrite draw_operator_label_unfold.
  pose proof (contains_split PyStr.dot oper) as Hdot.
  destruct (PyStr.split PyStr.dot oper) as [|a [|b [|c l]]] eqn:E.
  - by apply split_nonempty in E.
  - pose proof (split_one_piece _ _ E) as ->.
    assert (PyStr.contains PyStr.dot oper = false) as Hno by by apply Hdot.
    exists (if decide (oper = "") then AddOperator else ShouldContainDot), (oper_cache w).
    rewrite with_cache_same. split; [done|].
    destruct (decide (oper = "")) as [Hoper|Hoper];
      repeat split; intros; destruct_and?; simplify_eq/=; try done; try lia.
  - assert (PyStr.contains PyStr.dot oper ≠ false) as Hyes.
    { intros Hno. apply Hdot in Hno. by injection Hno. }
    assert (oper ≠ "") as Hne by by intros ->.
    destruct (oper_cache w !! oper) as [found|] eqn:Hc.
    + exists (found_label found), (oper_cache w).
      rewrite with_cache_same. split; [done|].
      destruct found; repeat split; intros; destruct_and?; simplify_eq/=;
        try done; try lia.
    + eexists (found_label _), _. split; [reflexivity|].
      destruct (bool_decide (a ∈ ops_dir h ∧ b ∈ submod_dir h a)) eqn:Hreg;
        repeat split; intros; destruct_and?; simplify_eq/=;
        try done; try lia; by rewrite Hreg.
  - assert (PyStr.contains PyStr.dot oper ≠ false) as Hyes.
    { intros Hno. apply Hdot in Hno. by injection Hno. }
    assert (oper ≠ "") as Hne by by intros ->.
    exists OnlyOneDot, (oper_cache w). rewrite with_cache_same.
    split; [done|].
    repeat split; intros; destruct_and?; simplify_eq/=; try done; try lia.
Qed.

Section draw_cache.

(** One row: the label found is the one any later drawing finds, as long
    as the cache has not lost an entry. *)
Lemma draw_operator_label_stable h oper w :
  ∃ label cache,
    draw_operator_label h oper w = (Return label, with_cache w cache)
    ∧ oper_cache w ⊆ cache
    ∧ ∀ h' w2, cache ⊆ oper_cache w2 →
        draw_operator_label h' oper w2 = (Return label, w2).
Proof.
  rewrite draw_operator_label_unfold.
  destruct (PyStr.split PyStr.dot oper) as [|a [|b [|c l]]] eqn:E.
  - exists OnlyOneDot, (oper_cache w). rewrite with_cache_same.
    split_and!; [done..|]. intros h' w2 _. by rewrite draw_operator_label_unfold, E.
  - eexists _, (oper_cache w). rewrite with_cache_same.
    split_and!; [done..|]. intros h' w2 _. by rewrite draw_operator_label_unfold, E.
  - destruct (oper_cache w !! oper) as [found|] eqn:Hc.
    + exists (found_label found), (oper_cache w). rewrite with_cache_same.
      split_and!; [done..|]. intros h' w2 Hsub.
      rewrite draw_operator_label_unfold, E.
      by rewrite (lookup_weaken _ _ _ _ Hc Hsub).
    + eexists _, _. split; [reflexivity|]. split; [by apply insert_subseteq|].
      intros h' w2 Hsub. rewrite draw_operator_label_unfold, E.
      by rewrite (lookup_weaken _ _ oper _ (lookup_insert_eq _ _ _) Hsub).
  - exists OnlyOneDot, (oper_cache w). rewrite with_cache_same.
    split_and!; [done..|]. intros h' w2 _. by rewrite draw_operator_label_unfold, E.
Qed.

Lemma draw_row_unfold h fa labels w :
  draw_row h fa labels w =
    match draw_operator_label h (operator fa) w with
    | (Return label, w') => (Return (labels ++ [label]), w')
    | (Raise e, w') => (Raise e, w')
    end.
Proof. done. Qed.

Lemma draw_loop_stable h prefs acc w :
  ∃ labels cache,
    for_each prefs acc (draw_row h) w = (Return (acc ++ labels), with_cache w cache)
    ∧ length labels = length prefs
    ∧ oper_cache w ⊆ cache
    ∧ ∀ h' acc' w2, cache ⊆ oper_cache w2 →
        for_each prefs acc' (draw_row h') w2 = (Return (acc' ++ labels), w2).
Proof.
  revert acc w. induction prefs as [|fa prefs IH]; intros acc w.
  - exists [], (oper_cache w). rewrite with_cache_same, app_nil_r.
    split_and!; [done..|]. intros h' acc' w2 _. by rewrite app_nil_r.
  - destruct (draw_operator_label_stable h (operator fa) w)
      as (label & c1 & Hlabel & Hsub1 & Hstable1).
    destruct (IH (acc ++ [label]) (with_cache w c1))
      as (labels & c2 & Hloop & Hlen & Hsub2 & Hstable2).
    exists (label :: labels), c2.
    rewrite for_each_cons, draw_row_unfold, Hlabel, Hloop, with_cache_twice.
    split_and!.
    + by rewrite <- app_assoc.
    + simpl. by rewrite Hlen.
    + by etrans.
    + intros h' acc' w2 Hsub.
      rewrite for_each_cons, draw_row_unfold.
      rewrite (Hstable1 h' w2) by (etrans; [exact Hsub2|exact Hsub]).
      rewrite (Hstable2 h' (acc' ++ [label]) w2 Hsub). by rewrite <- app_assoc.
Qed.

Lemma draw_labels_unfold h w :
  draw_labels h w = for_each (file_extensions w) [] (draw_row h) w.
Proof. reflexivity. Qed.

End draw_cache.

Example draw_labels_example :
  (draw_labels example_host
     {| file_extensions :=
          [ {| extension := "obj"; operator := "import_scene.obj" |};
            {| extension := "dae"; operator := "wm.collada_import" |};
            {| extension := "blend"; operator := "" |};
            {| extension := "x"; operator := "bpy.ops.import_scene.x" |};
            {| extension := "y"; operator := "nodot" |} ];
        oper_cache := ∅; reports := []; invocations := [] |}).1
  = Return [Blank; NotFound; AddOperator; OnlyOneDot; ShouldContainDot].
Proof. reflexivity. Qed.

(** X13: drawing the preference panel never raises and changes nothing
    but the cache; and drawing it again gives the same labels and changes
    nothing at all, whatever the host's registry holds by then: until the
    cache is reset, an operator that was registered or unregistered in the
    meantime keeps its old label. *)
Theorem draw_labels_cached (h : Host) (w : World) :
  ∃ labels cache,
    draw_labels h w = (Return labels, with_cache w cache)
    ∧ length labels = length (file_extensions w)
    ∧ ∀ h', draw_labels h' (with_cache w cache)
            = (Return labels, with_cache w cache).
Proof.
  destruct (draw_loop_stable h (file_extensions w) [] w)
    as (labels & cache & Hloop & Hlen & Hsub & Hstable).
  exists labels, cache. rewrite draw_labels_unfold, Hloop. split_and!; [done..|].
  intros h'. rewrite draw_labels_unfold.
  by apply (Hstable h' [] (with_cache w cache)).
Qed.


(** * More on the operator-field auto-fix *)

Section autofix_facts.
Import PyStr.

Lemma len_slice_to n s : len (slice_to n s) = (n `min` len s)%nat.
Proof.
  revert s. induction n as [|n IH]; intros [|a s]; try done.
  unfold len in *. simpl. by rewrite IH.
Qed.

Lemma len_drop_last2 s : len (drop_last2 s) = (len s - 2)%nat.
Proof. unfold drop_last2. rewrite len_slice_to. lia. Qed.

Lemma endswith_len s suf : endswith s suf = true → (len suf ≤ len s)%nat.
Proof.
  unfold endswith. intros [H _]%andb_true_iff. by apply Nat.leb_le.
Qed.

Lemma slice_to_len_app p s : slice_to (len p) (p +:+ s) = p.
Proof.
  induction p as [|a p IH]; [by destruct s|].
  rewrite app_cons. unfold len in *. simpl. by rewrite IH.
Qed.

Lemma drop_last2_parens s : drop_last2 (s +:+ "()") = s.
Proof.
  unfold drop_last2. rewrite len_app.
  replace (len s + len "()" - 2)%nat with (len s) by (unfold len; simpl; lia).
  apply slice_to_len_app.
Qed.

Lemma contains_app c s t : contains c (s +:+ t) = contains c s || contains c t.
Proof.
  induction s as [|a s IH]; [done|].
  rewrite app_cons, !contains_cons, IH. by rewrite orb_assoc.
Qed.

Lemma truthy_joined c d : truthy (c +:+ "." +:+ d) = true.
Proof. unfold truthy. destruct c; by rewrite ?app_empty_l, app_cons. Qed.

Lemma split_dot_app x rest :
  contains dot x = false →
  split dot (x +:+ "." +:+ rest) = x :: split dot rest.
Proof. intros Hx. rewrite app_cons, app_empty_l. by apply split_app_sep. Qed.

Lemma split_dot_piece x : contains dot x = false → split dot x = [x].
Proof. apply contains_split. Qed.

End autofix_facts.

(** X14: the auto-fix never makes the operator field longer, and it leaves
    the field as it is exactly when the field has not four dot-separated
    components and does not end with ["()"]; so a field in the format
    [base.oprs] is never touched. *)
Theorem operator_code_update_fixed_points (oper : string) :
  (PyStr.len (operator_code_update oper) ≤ PyStr.len oper)%nat
  ∧ (operator_code_update oper = oper ↔
       length (PyStr.split PyStr.dot oper) ≠ 4%nat
       ∧ PyStr.endswith oper "()" = false).
Proof.
  unfold operator_code_update.
  destruct (decide (length (PyStr.split PyStr.dot oper) = 4%nat)) as [H4|H4].
  - destruct (PyStr.split PyStr.dot oper) as [|a [|b [|c [|d [|e l]]]]] eqn:E;
      try done.
    simpl drop. change (PyStr.join "." [c; d]) with (c +:+ "." +:+ d).
    rewrite truthy_joined. simpl.
    assert (PyStr.len oper
            = (PyStr.len a + PyStr.len b + PyStr.len c + PyStr.len d + 3)%nat) as Hlen.
    { rewrite (split4_join _ _ _ _ _ E) at 1. rewrite !len_app.
      change (PyStr.len ".") with 1%nat. lia. }
    assert (PyStr.len (c +:+ "." +:+ d) = (PyStr.len c + PyStr.len d + 1)%nat) as Hnb.
    { rewrite !len_app. change (PyStr.len ".") with 1%nat. lia. }
    assert (PyStr.len
              (if PyStr.endswith oper "()" then PyStr.drop_last2 (c +:+ "." +:+ d)
               else c +:+ "." +:+ d) < PyStr.len oper)%nat as Hlt.
    { destruct (PyStr.endswith oper "()"); rewrite ?len_drop_last2; lia. }
    split; [lia|]. split; [|by intros [? _]].
    intros Heq. rewrite Heq in Hlt. lia.
  - destruct (PyStr.endswith oper "()") eqn:Hends.
    + pose proof (endswith_len _ _ Hends) as Hlen.
      change (PyStr.len "()") with 2%nat in Hlen.
      split; [rewrite len_drop_last2; lia|].
      split; [|by intros [_ ?]].
      intros Heq. apply (f_equal PyStr.len) in Heq.
      rewrite len_drop_last2 in Heq. lia.
    + split; [done|]. by split.
Qed.

(** X15: whichever way the user writes an operator [base.oprs] in the
    field (as pasted from the Python console with a two-component prefix such
    as [bpy.ops] and the call parentheses, with the prefix only, with the
    parentheses only, or plainly), the auto-fix leaves [base.oprs] in the
    field. *)
Theorem operator_code_update_spellings (p q base oprs : string) :
  PyStr.contains PyStr.dot p = false →
  PyStr.contains PyStr.dot q = false →
  PyStr.contains PyStr.dot base = false →
  PyStr.contains PyStr.dot oprs = false →
  PyStr.endswith oprs "()" = false →
  let target := base +:+ "." +:+ oprs in
  operator_code_update (p +:+ "." +:+ q +:+ "." +:+ target +:+ "()") = target
  ∧ operator_code_update (p +:+ "." +:+ q +:+ "." +:+ target) = target
  ∧ operator_code_update (target +:+ "()") = target
  ∧ operator_code_update target = target.
Proof.
  intros Hp Hq Hbase Hoprs Hends target.
  assert (PyStr.contains PyStr.dot (oprs +:+ "()") = false) as Hoprs'
    by by rewrite contains_app, Hoprs.
  assert (target +:+ "()" = base +:+ "." +:+ oprs +:+ "()") as Hassoc
    by (unfold target; by rewrite !app_assoc').
  unfold operator_code_update. split_and!.
  - rewrite Hassoc.
    rewrite !split_dot_app, (split_dot_piece (oprs +:+ "()")) by done.
    rewrite decide_True by done. simpl drop.
    change (PyStr.join "." [base; oprs +:+ "()"]) with (base +:+ "." +:+ oprs +:+ "()").
    rewrite truthy_joined, !endswith_parens_after_dot.
    assert (PyStr.endswith (oprs +:+ "()") "()" = true) as ->
      by (apply endswith_spec; by eexists).
    simpl. rewrite <- Hassoc. apply drop_last2_parens.
  - unfold target.
    rewrite !split_dot_app, (split_dot_piece oprs) by done.
    rewrite decide_True by done. simpl drop.
    change (PyStr.join "." [base; oprs]) with (base +:+ "." +:+ oprs).
    by rewrite truthy_joined, !endswith_parens_after_dot, Hends.
  - assert (PyStr.endswith (target +:+ "()") "()" = true) as ->
      by (apply endswith_spec; by eexists).
    rewrite Hassoc.
    rewrite !split_dot_app, (split_dot_piece (oprs +:+ "()")) by done.
    rewrite decide_False by (simpl; lia).
    rewrite <- Hassoc. apply drop_last2_parens.
  - unfold target.
    rewrite !split_dot_app, (split_dot_piece oprs) by done.
    rewrite decide_False by (simpl; lia).
    by rewrite endswith_parens_after_dot, Hends.
Qed.

Lemma operator_code_update_spellings_witness :
  operator_code_update "bpy.ops.import_scene.obj()" = "import_scene.obj"
  ∧ operator_code_update "bpy.ops.import_scene.obj" = "import_scene.obj"
  ∧ operator_code_update "import_scene.obj()" = "import_scene.obj"
  ∧ operator_code_update "import_scene.obj" = "import_scene.obj".
Proof.
  exact (operator_code_update_spellings "bpy" "ops" "import_scene" "obj"
           eq_refl eq_refl eq_refl eq_refl eq_refl).
Defined.


(** * The extension of a selected file *)

Section ext_of_facts.
Import PyStr.

(** [rfind] gives the place of the last occurrence, or [-1]. *)
Lemma rfind_from_spec c s i last :
  (contains c s = false ∧ rfind_from c s i last = last)
  ∨ (∃ pre post, s = pre +:+ String c post ∧ contains c post = false
                 ∧ rfind_from c s i last = i + Z.of_nat (len pre)).
Proof.
  revert i last. induction s as [|a s IH]; intros i last; [by left|].
  simpl. destruct (IH (i + 1) (if Ascii.eqb a c then i else last))
    as [[Hno ->]|(pre & post & -> & Hpost & ->)].
  - destruct (Ascii.eqb_spec a c) as [->|Hne].
    + right. exists "", s. rewrite app_empty_l. split_and!; [done..|].
      unfold len. simpl. lia.
    + left. by rewrite Hno.
  - right. exists (String a pre), post. rewrite app_cons.
    split_and!; [done..|]. unfold len. simpl. lia.
Qed.

Lemma rfind_spec c s :
  (contains c s = false ∧ rfind c s = -1)
  ∨ (∃ pre post, s = pre +:+ String c post ∧ contains c post = false
                 ∧ rfind c s = Z.of_nat (len pre)).
Proof.
  unfold rfind. destruct (rfind_from_spec c s 0 (-1)) as [?|(pre & post & ? & ? & ->)];
    [by left|]. right. exists pre, post. split_and!; [done..|lia].
Qed.

(** Two ways of cutting one string: the shorter first part is a prefix of
    the longer one. *)
Lemma app_eq_inv s1 t1 s2 t2 :
  s1 +:+ t1 = s2 +:+ t2 → (len s1 ≤ len s2)%nat →
  ∃ x, s2 = s1 +:+ x ∧ t1 = x +:+ t2.
Proof.
  revert s2. induction s1 as [|a s1 IH]; intros s2 Heq Hlen.
  - exists s2. by rewrite !app_empty_l in *.
  - destruct s2 as [|b s2]; [unfold len in Hlen; simpl in Hlen; lia|].
    rewrite !app_cons in Heq. injection Heq as -> Heq.
    destruct (IH s2 Heq) as (x & -> & ->); [unfold len in *; simpl in Hlen; lia|].
    exists x. by rewrite app_cons.
Qed.

Lemma splitext_ext p :
  (OsPath.splitext p).2 = ""
  ∨ ∃ pre post, p = pre +:+ String dot post
                ∧ contains dot post = false
                ∧ contains slash post = false
                ∧ (OsPath.splitext p).2 = String dot post.
Proof.
  unfold OsPath.splitext.
  destruct (rfind_spec dot p) as [[_ Hd]|(pre & post & Hp & Hpost & Hd)]; rewrite Hd.
  - left. destruct (rfind_spec slash p) as [[_ ->]|(? & ? & _ & _ & ->)]; simpl.
    + done.
    + replace (Z.of_nat _ <? -1) with false by (symmetry; apply Z.ltb_ge; lia). done.
  - destruct (_ && _) eqn:Hcond; [|by left]. right.
    apply andb_true_iff in Hcond as [Hlt%Z.ltb_lt _].
    exists pre, post. rewrite Nat2Z.id. simpl. split_and!; [done..| |].
    + destruct (rfind_spec slash p) as [[Hno _]|(pre2 & post2 & Hp2 & Hpost2 & Hs)].
      * rewrite Hp, contains_app, contains_cons in Hno.
        apply orb_false_iff in Hno as [_ Hno]. by apply orb_false_iff in Hno as [_ ?].
      * rewrite Hs in Hlt. rewrite Hp in Hp2.
        destruct (app_eq_inv pre2 (String slash post2) pre (String dot post))
          as (x & _ & Hx); [done|lia|].
        destruct x as [|a x]; [by rewrite app_empty_l in Hx|].
        rewrite app_cons in Hx. injection Hx as _ ->.
        rewrite contains_app, contains_cons in Hpost2.
        apply orb_false_iff in Hpost2 as [_ Hno].
        by apply orb_false_iff in Hno as [_ ?].
    + rewrite Hp at 1. by rewrite slice_from_len_app.
Qed.

End ext_of_facts.

(** X16: the extension [execute] computes for a selected file contains
    neither a dot nor a slash; when it is not empty, the name of the file is
    a stem, a dot and that extension, so it is what follows the last dot;
    and it is empty for a name without a dot. *)
Theorem ext_of_spec (name : string) :
  PyStr.contains PyStr.dot (OsPath.ext_of name) = false
  ∧ PyStr.contains PyStr.slash (OsPath.ext_of name) = false
  ∧ (OsPath.ext_of name ≠ "" →
     ∃ stem, name = stem +:+ "." +:+ OsPath.ext_of name)
  ∧ (PyStr.contains PyStr.dot name = false → OsPath.ext_of name = "").
Proof.
  unfold OsPath.ext_of.
  destruct (splitext_ext name) as [->|(pre & post & Hname & Hdot & Hslash & ->)];
    simpl; split_and!; try done.
  - exists pre. by rewrite app_cons, app_empty_l.
  - intros Hno. rewrite Hname, contains_app, contains_cons in Hno.
    apply orb_false_iff in Hno as [_ Hno]. apply orb_false_iff in Hno as [Hno _].
    by rewrite Ascii.eqb_refl in Hno.
Qed.


(** * The directory of the selection *)

Section path_facts.
Import PyStr.

Lemma rfind_last c pre post :
  contains c post = false → rfind c (pre +:+ String c post) = Z.of_nat (len pre).
Proof.
  intros Hpost.
  destruct (rfind_spec c (pre +:+ String c post))
    as [[Hno _]|(pre' & post' & Heq & Hpost' & ->)].
  - rewrite contains_app, contains_cons, Ascii.eqb_refl in Hno.
    by rewrite orb_true_r in Hno.
  - f_equal. destruct (decide (len pre ≤ len pre')%nat) as [Hle|Hgt].
    + destruct (app_eq_inv pre (String c post) pre' (String c post') Heq Hle)
        as (x & -> & Hx).
      destruct x as [|a x]; [by rewrite app_empty_r|].
      rewrite app_cons in Hx. injection Hx as _ ->.
      rewrite contains_app, contains_cons, Ascii.eqb_refl in Hpost.
      by rewrite orb_true_r in Hpost.
    + symmetry in Heq.
      destruct (app_eq_inv pre' (String c post') pre (String c post) Heq)
        as (x & -> & Hx); [lia|].
      destruct x as [|a x]; [by rewrite app_empty_r|].
      rewrite app_cons in Hx. injection Hx as _ ->.
      rewrite contains_app, contains_cons, Ascii.eqb_refl in Hpost'.
      by rewrite orb_true_r in Hpost'.
Qed.

Lemma rstrip_keeps c s a :
  a ≠ c → OsPath.rstrip c (s +:+ String a "") = s +:+ String a "".
Proof.
  intros Hne. induction s as [|b s IH].
  - rewrite app_empty_l. simpl. by destruct (Ascii.eqb_spec a c).
  - rewrite app_cons. simpl. rewrite IH.
    by destruct s; rewrite ?app_empty_l, ?app_cons.
Qed.

Lemma rstrip_drops c s : OsPath.rstrip c (s +:+ String c "") = OsPath.rstrip c s.
Proof.
  induction s as [|b s IH].
  - rewrite app_empty_l. simpl. by rewrite Ascii.eqb_refl.
  - rewrite app_cons. simpl. by rewrite IH.
Qed.

Lemma forallb_chars_app f s t :
  forallb f (chars (s +:+ t)) = forallb f (chars s) && forallb f (chars t).
Proof.
  induction s as [|a s IH]; [done|].
  rewrite app_cons. simpl. by rewrite IH, andb_assoc.
Qed.

Lemma endswith_last s a c :
  a ≠ c → endswith (s +:+ String a "") (String c "") = false.
Proof.
  intros Hne. apply not_true_is_false. intros [p Hp]%endswith_spec.
  assert (∀ s1 s2 x y, s1 +:+ String x "" = s2 +:+ String y "" → x = y) as Hlast.
  { clear. induction s1 as [|b s1 IH]; intros [|b2 s2] x y;
      rewrite ?app_empty_l, ?app_cons; intros [= ]; subst; try done.
    - by destruct s2.
    - by destruct s1.
    - by eapply IH. }
  by apply Hlast in Hp.
Qed.

End path_facts.

(** X17: on a POSIX platform, where [os.path] is [posixpath]: when the
    path of the selection is a directory that does not end with a slash, a
    slash and a file name without slash, [execute] sets [self.directory] to
    that directory, and the [filepath] that [import_single] joins from it and
    a file name is the directory, a slash and the file name. *)
Theorem selection_directory (d name f : string) (a : ascii) :
  a ≠ PyStr.slash →
  PyStr.contains PyStr.slash name = false →
  PyStr.startswith f "/" = false →
  let dir := d +:+ String a "" in
  directory (self_at_import
               {| filepath := dir +:+ "/" +:+ name; files := [name]; directory := "" |})
    = dir
  ∧ OsPath.join dir f = dir +:+ "/" +:+ f.
Proof.
  intros Ha Hname Hf dir. split.
  - simpl. unfold OsPath.dirname.
    assert (dir +:+ "/" +:+ name = dir +:+ String PyStr.slash name) as ->
      by by rewrite app_cons, app_empty_l.
    rewrite rfind_last by done.
    replace (Z.to_nat (Z.of_nat (PyStr.len dir) + 1)) with (PyStr.len (dir +:+ "/"))
      by (rewrite len_app; change (PyStr.len "/") with 1%nat; lia).
    assert (dir +:+ String PyStr.slash name = (dir +:+ "/") +:+ name) as ->
      by by rewrite app_assoc', app_cons, app_empty_l.
    rewrite slice_to_len_app.
    assert (PyStr.truthy (dir +:+ "/") = true) as ->.
    { unfold dir, PyStr.truthy. by destruct d; rewrite ?app_empty_l, ?app_cons. }
    assert (forallb (Ascii.eqb PyStr.slash) (PyStr.chars (dir +:+ "/")) = false) as ->.
    { unfold dir. rewrite !forallb_chars_app.
      change (forallb (Ascii.eqb PyStr.slash) (PyStr.chars (String a "")))
        with (Ascii.eqb PyStr.slash a && true).
      destruct (Ascii.eqb_spec PyStr.slash a) as [E|]; [by destruct Ha|].
      by destruct (forallb _ (PyStr.chars d)). }
    simpl. change "/" with (String PyStr.slash "").
    rewrite rstrip_drops. by apply rstrip_keeps.
  - unfold OsPath.join. rewrite Hf.
    assert (PyStr.truthy dir = true) as ->.
    { unfold dir, PyStr.truthy. by destruct d; rewrite ?app_empty_l, ?app_cons. }
    simpl. change "/" with (String PyStr.slash "") at 1.
    unfold dir at 1. by rewrite endswith_last.
Qed.

Lemma selection_directory_witness :
  directory (self_at_import
               {| filepath := "/home/u/models/a.obj"; files := ["a.obj"];
                  directory := "" |})
    = "/home/u/models"
  ∧ OsPath.join "/home/u/models" "b.obj" = "/home/u/models/b.obj".
Proof.
  exact (selection_directory "/home/u/model" "a.obj" "b.obj" "s"
           ltac:(discriminate) eq_refl eq_refl).
Defined.


(** * Class annotations *)

Example tuple_lt_examples :
  tuple_lt [2; 79; 0]%nat [2; 80]%nat = true
  ∧ tuple_lt [2; 80; 0]%nat [2; 80]%nat = false
  ∧ tuple_lt [2; 93; 1]%nat [2; 80]%nat = false.
Proof. done. Qed.

Example make_annotations_example :
  make_annotations (Some [2; 80; 0]%nat)
    {| cls_dict := [ ("bl_idname", {| is_tuple := false; attr_repr := "import_any.file" |});
                     ("files", {| is_tuple := true; attr_repr := "CollectionProperty" |});
                     ("execute", {| is_tuple := false; attr_repr := "function" |});
                     ("filter_glob", {| is_tuple := true; attr_repr := "StringProperty" |}) ];
       cls_annotations := None |}
  = {| cls_dict := [ ("bl_idname", {| is_tuple := false; attr_repr := "import_any.file" |});
                     ("execute", {| is_tuple := false; attr_repr := "function" |}) ];
       cls_annotations :=
         Some [ ("files", {| is_tuple := true; attr_repr := "CollectionProperty" |});
                ("filter_glob", {| is_tuple := true; attr_repr := "StringProperty" |}) ] |}.
Proof. reflexivity. Qed.

Section pydict_facts.
Context {V : Type}.
Implicit Types (d l : list (string * V)).

Lemma pydict_get_set d k v k' :
  pydict_get (pydict_set d k v) k' = if decide (k = k') then Some v else pydict_get d k'.
Proof.
  induction d as [|[k1 v1] d IH]; simpl.
  - done.
  - destruct (decide (k1 = k)) as [->|Hk]; simpl.
    + by destruct (decide (k = k')).
    + rewrite IH. destruct (decide (k1 = k')) as [->|]; [|done].
      by rewrite decide_False by done.
Qed.

Lemma pydict_get_None d k : k ∉ d.*1 → pydict_get d k = None.
Proof.
  induction d as [|[k1 v1] d IH]; simpl; [done|].
  intros Hk. rewrite decide_False by (intros ->; apply Hk; by left).
  apply IH. intros ?. apply Hk. by right.
Qed.

Lemma pydict_get_elem_of d k v :
  NoDup d.*1 → (k, v) ∈ d → pydict_get d k = Some v.
Proof.
  induction d as [|[k1 v1] d IH]; simpl; [by intros _ ?%elem_of_nil|].
  intros [Hk1 Hnd]%NoDup_cons [[= -> ->]|Hin]%elem_of_cons.
  - by rewrite decide_True.
  - rewrite decide_False; [by apply IH|].
    intros ->. apply Hk1. by apply (list_elem_of_fmap_2 fst _ (k, v)).
Qed.

Lemma pydict_get_Some d k v : pydict_get d k = Some v → (k, v) ∈ d.
Proof.
  induction d as [|[k1 v1] d IH]; simpl; [done|].
  case_decide as Hk; [intros [= ->]; subst; by left|]. intros ?%IH. by right.
Qed.

Lemma pydict_get_filter (P : string * V → Prop) `{∀ x, Decision (P x)} d k :
  NoDup d.*1 →
  pydict_get (filter P d) k
  = match pydict_get d k with
    | Some v => if decide (P (k, v)) then Some v else None
    | None => None
    end.
Proof.
  induction d as [|[k1 v1] d IH]; [done|].
  intros [Hk1 Hnd]%NoDup_cons. simpl pydict_get at 2.
  destruct (decide (P (k1, v1))) as [HP|HP].
  - rewrite filter_cons_True by done. simpl.
    destruct (decide (k1 = k)) as [->|]; [by rewrite decide_True|by apply IH].
  - rewrite filter_cons_False by done.
    destruct (decide (k1 = k)) as [->|]; [|by apply IH].
    rewrite decide_False by done. apply pydict_get_None.
    intros Hin. apply Hk1.
    apply list_elem_of_fmap in Hin as ([k2 v2] & -> & Hin).
    apply list_elem_of_filter in Hin as [_ Hin].
    by apply (list_elem_of_fmap_2 fst _ (k2, v2)).
Qed.

(** Assigning the items of [l] one after the other. *)
Lemma pydict_get_foldl_set l d k :
  NoDup l.*1 →
  pydict_get (foldl (λ a kv, pydict_set a kv.1 kv.2) d l) k
  = match pydict_get l k with
    | Some v => Some v
    | None => pydict_get d k
    end.
Proof.
  revert d. induction l as [|[k0 v0] l IH]; intros d; [done|].
  intros [Hk0 Hnd]%NoDup_cons. simpl. rewrite IH by done.
  rewrite pydict_get_set.
  destruct (decide (k0 = k)) as [->|]; [|done].
  by rewrite pydict_get_None.
Qed.

End pydict_facts.

Section make_annotations_facts.

Lemma filter_no_keys (attrs : list (string * AttrValue)) :
  filter (λ kv, kv.1 ∉ ([] : list (string * AttrValue)).*1) attrs = attrs.
Proof.
  induction attrs as [|kv attrs IHa]; [done|].
  rewrite filter_cons_True by by intros ?%elem_of_nil. by rewrite IHa.
Qed.

Lemma foldl_move_prop (l attrs ann : list (string * AttrValue)) :
  foldl move_prop (attrs, ann) l
  = (filter (λ kv, kv.1 ∉ l.*1) attrs,
     foldl (λ a kv, pydict_set a kv.1 kv.2) ann l).
Proof.
  revert attrs ann. induction l as [|[k0 v0] l IH]; intros attrs ann.
  - simpl. f_equal. symmetry. apply filter_no_keys.
  - change (foldl move_prop (attrs, ann) ((k0, v0) :: l))
      with (foldl move_prop (pydict_del attrs k0, pydict_set ann k0 v0) l).
    rewrite IH. f_equal. unfold pydict_del. rewrite list_filter_filter.
    apply list_filter_iff. intros kv. rewrite fmap_cons, elem_of_cons. simpl. tauto.
Qed.

Lemma tuple_keys (attrs : list (string * AttrValue)) (kv : string * AttrValue) :
  NoDup attrs.*1 → kv ∈ attrs →
  kv.1 ∈ (filter (λ kv, is_tuple kv.2 = true) attrs).*1 ↔ is_tuple kv.2 = true.
Proof.
  intros Hnd Hin. split.
  - intros ([k v] & Hk & [Ht Hkv]%list_elem_of_filter)%list_elem_of_fmap.
    simpl in *. subst k. destruct kv as [k v']. simpl in *.
    pose proof (pydict_get_elem_of _ _ _ Hnd Hin) as H1.
    pose proof (pydict_get_elem_of _ _ _ Hnd Hkv) as H2.
    congruence.
  - intros Ht. apply (list_elem_of_fmap_2 fst _ kv).
    by apply list_elem_of_filter.
Qed.

Lemma filter_elem_of_iff {A} (P Q : A → Prop) `{∀ x, Decision (P x)}
    `{∀ x, Decision (Q x)} (l : list A) :
  (∀ x, x ∈ l → P x ↔ Q x) → filter P l = filter Q l.
Proof.
  induction l as [|x l IH]; intros HPQ; [done|].
  assert (filter P l = filter Q l) as IH' by (apply IH; intros; apply HPQ; by right).
  destruct (decide (P x)) as [HP|HP].
  - rewrite !filter_cons_True; [by rewrite IH'|by apply HPQ; [left|]|done].
  - rewrite !filter_cons_False; [done| |done]. intros HQ. apply HP. apply HPQ; [by left|done].
Qed.

End make_annotations_facts.

(** X18: from version 2.80 on, [make_annotations] moves the tuple-valued
    attributes of a class into its annotations: the class keeps its other
    attributes, in order, and no tuple-valued one; looking a name up in the
    annotations gives the value of the tuple-valued attribute of that name if
    there was one, and what the annotations held before otherwise.  A class
    without tuple-valued attributes is returned as it is, without acquiring
    annotations. *)
Theorem make_annotations_moves_tuples (v : list nat) (cls : PyClass) :
  tuple_lt v [2; 80]%nat = false →
  NoDup (cls_dict cls).*1 →
  let cls' := make_annotations (Some v) cls in
  cls_dict cls' = filter (λ kv, is_tuple kv.2 = false) (cls_dict cls)
  ∧ (∀ k, pydict_get (default [] (cls_annotations cls')) k
          = match pydict_get (cls_dict cls) k with
            | Some val =>
                if is_tuple val then Some val
                else pydict_get (default [] (cls_annotations cls)) k
            | None => pydict_get (default [] (cls_annotations cls)) k
            end)
  ∧ (Forall (λ kv, is_tuple kv.2 = false) (cls_dict cls) → cls' = cls).
Proof.
  intros Hv Hnd cls'. unfold cls', make_annotations. rewrite Hv.
  assert (filter (λ kv, kv.1 ∉ (filter (λ kv, is_tuple kv.2 = true) (cls_dict cls)).*1)
            (cls_dict cls)
          = filter (λ kv, is_tuple kv.2 = false) (cls_dict cls)) as Hkeep.
  { apply filter_elem_of_iff. intros kv Hin.
    rewrite (tuple_keys _ _ Hnd Hin). by destruct (is_tuple kv.2). }
  assert (∀ k, pydict_get (filter (λ kv, is_tuple kv.2 = true) (cls_dict cls)) k
               = match pydict_get (cls_dict cls) k with
                 | Some val => if is_tuple val then Some val else None
                 | None => None
                 end) as Hget.
  { intros k. rewrite pydict_get_filter by done.
    destruct (pydict_get (cls_dict cls) k) as [val|]; [|done]. simpl.
    by destruct (is_tuple val). }
  assert (NoDup (filter (λ kv, is_tuple kv.2 = true) (cls_dict cls)).*1) as Hnd'.
  { assert ((filter (λ kv, is_tuple kv.2 = true) (cls_dict cls)).*1
              `sublist_of` (cls_dict cls).*1) as Hsub
      by apply fmap_sublist, sublist_filter.
    by eapply sublist_NoDup. }
  destruct (filter (λ kv, is_tuple kv.2 = true) (cls_dict cls)) as [|kv0 bl] eqn:Hbl.
  - split_and!; [|intros k|done].
    + rewrite <- Hkeep. symmetry. apply filter_no_keys.
    + specialize (Hget k). simpl in Hget.
      destruct (pydict_get (cls_dict cls) k) as [val|]; [|done].
      by destruct (is_tuple val).
  - rewrite foldl_move_prop. cbn [fst snd cls_dict cls_annotations default from_option].
    split_and!; [done|intros k|].
    + change (pydict_get (id ?x) k) with (pydict_get x k).
      rewrite pydict_get_foldl_set by done. rewrite Hget.
      destruct (pydict_get (cls_dict cls) k) as [val|]; [|done].
      by destruct (is_tuple val).
    + intros Hall. exfalso.
      assert (kv0 ∈ filter (λ kv, is_tuple kv.2 = true) (cls_dict cls)) as Hin
        by (rewrite Hbl; by left).
      apply list_elem_of_filter in Hin as [Ht Hin].
      rewrite Forall_forall in Hall. specialize (Hall kv0 Hin). congruence.
Qed.

Lemma make_annotations_moves_tuples_witness :
  let cls :=
    {| cls_dict := [ ("bl_label", {| is_tuple := false; attr_repr := "Add extension" |});
                     ("extension", {| is_tuple := true; attr_repr := "StringProperty" |}) ];
       cls_annotations := None |} in
  cls_dict (make_annotations (Some [2; 80; 0]%nat) cls)
  = [ ("bl_label", {| is_tuple := false; attr_repr := "Add extension" |}) ].
Proof.
  intros cls.
  destruct (make_annotations_moves_tuples [2; 80; 0]%nat cls) as [H _].
  - reflexivity.
  - apply (bool_decide_unpack _). by vm_compute.
  - exact H.
Defined.

(** X19: before version 2.80, or when [bpy.app] has no version, the class
    is returned as it is; and in every case applying [make_annotations] to
    its own result changes nothing more: after it no attribute of the class is
    tuple-valued. *)
Theorem make_annotations_idempotent (version : option (list nat)) (cls : PyClass) :
  (from_option (λ v, tuple_lt v [2; 80]%nat) true version = true →
   make_annotations version cls = cls)
  ∧ (from_option (λ v, tuple_lt v [2; 80]%nat) true version = false →
     Forall (λ kv, is_tuple kv.2 = false) (cls_dict (make_annotations version cls)))
  ∧ make_annotations version (make_annotations version cls)
    = make_annotations version cls.
Proof.
  assert (from_option (λ v, tuple_lt v [2; 80]%nat) true version = false →
          Forall (λ kv, is_tuple kv.2 = false) (cls_dict (make_annotations version cls)))
    as Hclean.
  { destruct version as [v|]; [|done]. simpl. intros Hv.
    unfold make_annotations. rewrite Hv.
    destruct (filter (λ kv, is_tuple kv.2 = true) (cls_dict cls)) as [|kv0 bl] eqn:Hbl.
    - apply Forall_forall. intros kv Hin.
      destruct (is_tuple kv.2) eqn:Ht; [|done]. exfalso.
      assert (kv ∈ filter (λ kv, is_tuple kv.2 = true) (cls_dict cls)) as Hin'
        by by apply list_elem_of_filter.
      rewrite Hbl in Hin'. by apply elem_of_nil in Hin'.
    - rewrite foldl_move_prop. cbn [fst cls_dict].
      apply Forall_forall. intros kv [Hkey Hin]%list_elem_of_filter.
      destruct (is_tuple kv.2) eqn:Ht; [|done]. exfalso. apply Hkey.
      rewrite <- Hbl. apply (list_elem_of_fmap_2 fst _ kv).
      by apply list_elem_of_filter. }
  split_and!; [|done|].
  - destruct version as [v|]; [|done]. simpl. intros Hv.
    unfold make_annotations. by rewrite Hv.
  - destruct (from_option (λ v, tuple_lt v [2; 80]%nat) true version) eqn:Hold.
    + destruct version as [v|]; [|done]. simpl in Hold.
      unfold make_annotations. by rewrite Hold.
    + specialize (Hclean eq_refl).
      destruct version as [v|]; [|done]. simpl in Hold.
      generalize dependent (make_annotations (Some v) cls). intros cls' Hclean.
      unfold make_annotations. rewrite Hold.
      assert (filter (λ kv, is_tuple kv.2 = true) (cls_dict cls') = []) as ->; [|done].
      induction Hclean as [|kv attrs Hkv _ IH]; [done|].
      rewrite filter_cons_False by congruence. done.
Qed.
